(** * stn81/httpclient: a shallow embedding of the request pipeline

    The development follows the Go sources file by file:
    error.go, the retry classifier, request_options.go, client_options.go,
    the client (Do / do), jsonclient.go and xmlclient.go.

    Everything the package calls but does not define (net/http, net/url,
    compress/gzip, encoding/json, encoding/xml, zap, the go-resiliency
    retrier) is either taken as a field of the environment class [Env] or
    given a small executable model, and every call into it is recorded as an
    [Event], so that statements such as "no dispatch occurs" or "one log
    record is emitted" are statements about the list of events of a call. *)

From Stdlib Require Import ZArith String Ascii List Lia Bool DecimalString DecimalZ.
From stdpp Require Import base option list gmap strings sorting.

#[local] Open Scope Z_scope.

(** ** error.go *)

(** [type HTTPError struct { StatusCode int; StatusText string }] *)
Record HTTPError := mkHTTPError { StatusCode : Z; StatusText : string }.

(** A non-nil Go [error] value is either a [*HTTPError] of this package or
    an error made outside of it (transport, option hook, gzip, codec); the
    latter is kept by its message.  A nilable [error] is [option error]. *)
Inductive error :=
| ErrHTTP (e : HTTPError)
| ErrExt (msg : string).

(** ** The retry classifier *)

(** [retrier.Action] of go-resiliency. *)
Inductive Action := Succeed | Fail | Retry.

(** [retrier.Classifier] is an interface with the single method [Classify]. *)
Class Classifier (C : Type) := Classify : C → option error → Action.

(** [type RetryClassifier struct{}] *)
Inductive RetryClassifier := mkRetryClassifier.

(** [RetryClassifier.Classify(err error) retrier.Action] *)
#[export] Instance RetryClassifier_Classify : Classifier RetryClassifier :=
  λ _ err,
    match err with
    | None => Succeed
    | Some _ => Retry
    end.

(** [var DefaultRetryClassifier = &RetryClassifier{}] *)
Definition DefaultRetryClassifier : RetryClassifier := mkRetryClassifier.

(** ** net/http and net/url data, as far as the package touches it *)

(** [http.Header]: canonical key to the list of its values. *)
Abbreviation Header := (gmap string (list string)).

Definition isUpper (c : ascii) : bool := (65 <=? nat_of_ascii c)%nat && (nat_of_ascii c <=? 90)%nat.
Definition isLower (c : ascii) : bool := (97 <=? nat_of_ascii c)%nat && (nat_of_ascii c <=? 122)%nat.
Definition isDigit (c : ascii) : bool := (48 <=? nat_of_ascii c)%nat && (nat_of_ascii c <=? 57)%nat.
Definition toUpper (c : ascii) : ascii :=
  if isLower c then ascii_of_nat (nat_of_ascii c - 32) else c.
Definition toLower (c : ascii) : ascii :=
  if isUpper c then ascii_of_nat (nat_of_ascii c + 32) else c.

(** textproto's table of bytes allowed in a header field name. *)
Definition validHeaderFieldByte (c : ascii) : bool :=
  isUpper c || isLower c || isDigit c ||
  existsb (Ascii.eqb c) (list_ascii_of_string "!#$%&'*+-.^_`|~").

Fixpoint canonicalize (upper : bool) (s : string) : string :=
  match s with
  | EmptyString => EmptyString
  | String c rest =>
      String (if upper then toUpper c else toLower c)
             (canonicalize (Ascii.eqb c "-") rest)
  end.

(** [textproto.CanonicalMIMEHeaderKey]: a key with a byte outside the
    table is left as it is. *)
Definition CanonicalMIMEHeaderKey (s : string) : string :=
  if forallb validHeaderFieldByte (list_ascii_of_string s)
  then canonicalize true s else s.

(** [Header.Set] replaces every value of the key, [Header.Get] returns the
    first value or the empty string. *)
Definition Header_Set (h : Header) (key value : string) : Header :=
  <[CanonicalMIMEHeaderKey key := [value]]> h.

Definition Header_Get (h : Header) (key : string) : string :=
  match h !! CanonicalMIMEHeaderKey key with
  | Some (v :: _) => v
  | _ => ""
  end.

(** [url.URL], the fields the pipeline reads or writes. *)
Record URL := mkURL {
  Scheme : string;
  Host : string;
  Path : string;
  RawQuery : string;
  Fragment : string
}.

(** [URL.String] for URLs of this shape. *)
Definition URL_String (u : URL) : string :=
  (if String.eqb (Scheme u) "" then "" else Scheme u +:+ ":") +:+
  (if String.eqb (Host u) "" then "" else "//" +:+ Host u) +:+
  Path u +:+
  (if String.eqb (RawQuery u) "" then "" else "?" +:+ RawQuery u) +:+
  (if String.eqb (Fragment u) "" then "" else "#" +:+ Fragment u).

(** [http.Request] *)
Record Request := mkRequest {
  req_Method : string;
  req_URL : URL;
  req_Header : Header;
  req_Body : string
}.

(** A body stream, by what reading it to the end yields: the bytes and the
    error of [ioutil.ReadAll]. *)
Record BodyStream := mkBody { body_data : string; body_err : option error }.

(** [http.Response] *)
Record Response := mkResponse {
  resp_StatusCode : Z;
  resp_Status : string;
  resp_Header : Header;
  resp_Body : BodyStream
}.

(** ** zap log records *)

Inductive Level := DebugLevel | ErrorLevel.

(** The value of a structured field; the measured [proc_time] is wall-clock
    time and is kept as a field without a value. *)
Inductive Field :=
| FString (key value : string)
| FInt64 (key : string) (value : Z)
| FError (e : error)
| FDuration (key : string).

Record LogRecord := mkLog { log_level : Level; log_msg : string; log_fields : list Field }.

(** A Go value behind [interface{}], by the dynamic types the wrappers
    switch on. *)
Inductive iface (V : Type) :=
| INil
| IString (s : string)
| IRawMessage (b : string)
| IBytes (b : string)
| IOther (v : V).
Arguments INil {V}.
Arguments IString {V} s.
Arguments IRawMessage {V} b.
Arguments IBytes {V} b.
Arguments IOther {V} v.

(** ** The environment: everything outside the package *)

Class Env := {
  (** values of [context.Context] *)
  Ctx : Type;
  (** Go values that are marshalled and unmarshalled *)
  Value : Type;
  (** the state of the transport and of whatever answers it *)
  NetState : Type;
  (** [http.NewRequest(method, url, strings.NewReader(body))] *)
  http_NewRequest : string → string → string → error + Request;
  (** [client.Client.Do(req)], the transport, under the client's timeout *)
  http_Do : NetState → Z → Request → NetState * (error + Response);
  (** [gzip.NewReader(body)]: an error for a bad header, or the reader,
      given by what reading it to the end yields *)
  gzip_NewReader : BodyStream → error + BodyStream;
  (** [resp.Cookies()], name and value of each cookie *)
  resp_Cookies : Response → list (string * string);
  json_Marshal : iface Value → error + string;
  (** [json.Unmarshal(data, v)]: the destination afterwards and the error *)
  json_Unmarshal : string → Value → Value * option error;
  xml_Marshal : iface Value → error + string;
  xml_Unmarshal : string → Value → Value * option error
}.

(** ** net/url: query values *)

(** [url.Values] is [map[string][]string]; a missing key reads as the nil
    slice, which is what [!!!] gives. *)
Abbreviation Values := (gmap string (list string)).

(** [Values.Add]: [v[key] = append(v[key], value)] *)
Definition Values_Add (v : Values) (key value : string) : Values :=
  <[key := v !!! key ++ [value]]> v.

Definition ishex (c : ascii) : bool :=
  isDigit c ||
  ((97 <=? nat_of_ascii c)%nat && (nat_of_ascii c <=? 102)%nat) ||
  ((65 <=? nat_of_ascii c)%nat && (nat_of_ascii c <=? 70)%nat).

Definition unhex (c : ascii) : nat :=
  if isDigit c then nat_of_ascii c - 48
  else if isLower c then nat_of_ascii c - 97 + 10
  else if isUpper c then nat_of_ascii c - 65 + 10
  else 0.

(** [url.QueryUnescape]: [None] stands for the [EscapeError]. *)
Fixpoint QueryUnescape (s : string) : option string :=
  match s with
  | EmptyString => Some EmptyString
  | String c rest =>
      if Ascii.eqb c "%" then
        match rest with
        | String h1 (String h2 rest') =>
            if ishex h1 && ishex h2
            then String (ascii_of_nat (unhex h1 * 16 + unhex h2)) <$> QueryUnescape rest'
            else None
        | _ => None
        end
      else if Ascii.eqb c "+" then String " " <$> QueryUnescape rest
      else String c <$> QueryUnescape rest
  end.

(** [shouldEscape(c, encodeQueryComponent)] *)
Definition shouldEscape (c : ascii) : bool :=
  negb (isLower c || isUpper c || isDigit c ||
        existsb (Ascii.eqb c) (list_ascii_of_string "-_.~")).

Definition upperhex (n : nat) : ascii :=
  nth n (list_ascii_of_string "0123456789ABCDEF") "0"%char.

Definition escapeByte (c : ascii) : string :=
  if Ascii.eqb c " " then "+"
  else if shouldEscape c
       then String "%" (String (upperhex (nat_of_ascii c / 16))
                       (String (upperhex (nat_of_ascii c mod 16)) EmptyString))
       else String c EmptyString.

(** [url.QueryEscape] *)
Fixpoint QueryEscape (s : string) : string :=
  match s with
  | EmptyString => EmptyString
  | String c rest => escapeByte c +:+ QueryEscape rest
  end.

(** [strings.Cut(s, sep)] for a one-byte separator, without the flag. *)
Fixpoint cut (sep : ascii) (s : string) : string * string :=
  match s with
  | EmptyString => (EmptyString, EmptyString)
  | String c rest =>
      if Ascii.eqb c sep then (EmptyString, rest)
      else let '(before, after) := cut sep rest in (String c before, after)
  end.

Definition contains (c : ascii) (s : string) : bool :=
  existsb (Ascii.eqb c) (list_ascii_of_string s).

(** One round of the loop of [parseQuery]: a segment with a semicolon, an
    empty segment and a segment with a bad escape are skipped. *)
Definition parsePair (m : Values) (seg : string) : Values :=
  if contains ";" seg then m
  else if String.eqb seg "" then m
  else
    let '(key, value) := cut "=" seg in
    match QueryUnescape key with
    | None => m
    | Some key =>
        match QueryUnescape value with
        | None => m
        | Some value => <[key := m !!! key ++ [value]]> m
        end
    end.

(** The loop of [parseQuery]: [for query != "" { key, query, _ =
    strings.Cut(query, "&"); ... }].  Every round removes at least one byte
    of [query], so its length is fuel enough. *)
Fixpoint parseQuery_loop (fuel : nat) (m : Values) (query : string) : Values :=
  match fuel with
  | O => m
  | S fuel =>
      if String.eqb query "" then m
      else let '(seg, query) := cut "&" query in
           parseQuery_loop fuel (parsePair m seg) query
  end.

Definition parseQuery (m : Values) (query : string) : Values :=
  parseQuery_loop (String.length query) m query.

(** [URL.Query()]: [ParseQuery(u.RawQuery)] with the error dropped. *)
Definition URL_Query (u : URL) : Values :=
  parseQuery ∅ (RawQuery u).

(** The keys of [Values.Encode] after [sort.Strings]. *)
Definition sortedKeys (v : Values) : list string :=
  merge_sort (λ x y : string, String.leb x y) (map_to_list v).*1.

(** The inner loop of [Values.Encode] for one key. *)
Definition encodeKey (v : Values) (buf : string) (k : string) : string :=
  foldl (λ buf x,
           (if String.eqb buf "" then buf else buf +:+ "&") +:+
           QueryEscape k +:+ "=" +:+ QueryEscape x)
        buf (v !!! k).

(** [Values.Encode] *)
Definition Values_Encode (v : Values) : string :=
  foldl (encodeKey v) "" (sortedKeys v).

(** The encoded form read as a list: one [key=value] per value, the keys
    in sorted order, joined by [&]. *)
Definition encPair (p : string * string) : string :=
  QueryEscape p.1 +:+ "=" +:+ QueryEscape p.2.

Definition glue (a b : string) : string :=
  if String.eqb a "" then b
  else if String.eqb b "" then a
  else a +:+ "&" +:+ b.

Definition joinPairs (ps : list (string * string)) : string :=
  foldr (λ p acc, glue (encPair p) acc) "" ps.

Definition pairsOf (v : Values) : list (string * string) :=
  flat_map (λ k, map (pair k) (v !!! k)) (sortedKeys v).

(** ** The state the package runs on, and a small monad for it *)

Section Pipeline.
Context `{E : Env}.

(** [type RequestOption func(ctx context.Context, req *http.Request)
    (newctx context.Context, err error)]: the request is mutated in place,
    so the option returns it as well. *)
Definition RequestOption : Type := Ctx → Request → Ctx * Request * option error.

(** [retrier.Retrier]: the backoff schedule and the [Classify] method of
    its classifier. *)
Record Retrier := mkRetrier {
  backoff : list Z;
  class : option error → Action
}.

(** [retrier.New(backoff, class)] *)
Definition retrier_New {C} `{Classifier C} (backoff : list Z) (c : C) : Retrier :=
  mkRetrier backoff (Classify c).

(** [type Client struct]: the embedded [*http.Client] is the environment's
    transport together with its [Timeout]; the logger is the event list. *)
Record Client := mkClient {
  cl_Timeout : Z;
  cl_retrier : option Retrier;
  cl_reqOpts : list RequestOption;
  cl_debugTraffic : bool
}.

(** The client behind the pointer, the transport, and the named results
    [result], [err] of the running [Do], which its closure writes. *)
Record State := mkState {
  st_client : Client;
  st_net : NetState;
  st_frame : string * option error
}.

Inductive Codec := JSON | XML.
Inductive Closer := RespBody | GzipReader.

(** One constructor per call that leaves the package. *)
Inductive Event :=
| EvNewRequest (method url body : string)
| EvOption (opt : RequestOption) (ctx : Ctx) (req : Request)
| EvDispatch (req : Request) (out : error + Response)
| EvGzipNewReader (body : BodyStream)
| EvReadAll (reader : BodyStream)
| EvClose (c : Closer)
| EvLog (r : LogRecord)
| EvSleep (d : Z)
| EvMarshal (c : Codec) (body : iface Value)
| EvUnmarshal (c : Codec) (data : string).

(** State passing, with the events of the computation written out. *)
Definition M (A : Type) : Type := State → A * State * list Event.

#[export] Instance M_ret : MRet M := λ A a st, (a, st, []).
#[export] Instance M_bind : MBind M := λ A B f m st,
  let '(a, st1, t1) := m st in
  let '(b, st2, t2) := f a st1 in
  (b, st2, t1 ++ t2).

Definition emit (e : Event) : M unit := λ st, (tt, st, [e]).
Definition getClient : M Client := λ st, (st_client st, st, []).
Definition setClient (c : Client) : M unit :=
  λ st, (tt, mkState c (st_net st) (st_frame st), []).
Definition getFrame : M (string * option error) := λ st, (st_frame st, st, []).
Definition setFrame (f : string * option error) : M unit :=
  λ st, (tt, mkState (st_client st) (st_net st) f, []).

Definition logError (logger : list Field) (msg : string) (fields : list Field) : M unit :=
  emit (EvLog (mkLog ErrorLevel msg (logger ++ fields))).
Definition logDebug (logger : list Field) (msg : string) (fields : list Field) : M unit :=
  emit (EvLog (mkLog DebugLevel msg (logger ++ fields))).

(** ** request_options.go *)

Definition Request_setHeader (req : Request) (key value : string) : Request :=
  mkRequest (req_Method req) (req_URL req)
            (Header_Set (req_Header req) key value) (req_Body req).

Definition URL_setRawQuery (u : URL) (q : string) : URL :=
  mkURL (Scheme u) (Host u) (Path u) q (Fragment u).

Definition Request_setRawQuery (req : Request) (q : string) : Request :=
  mkRequest (req_Method req) (URL_setRawQuery (req_URL req) q)
            (req_Header req) (req_Body req).

Definition SetHeader (key value : string) : RequestOption :=
  λ ctx req, (ctx, Request_setHeader req key value, None).

Definition SetTypeXML : RequestOption :=
  SetHeader "Content-Type" "application/xml; charset=UTF-8".

Definition SetTypeJSON : RequestOption :=
  SetHeader "Content-Type" "application/json; charset=UTF-8".

Definition SetTypeForm : RequestOption :=
  SetHeader "Content-Type" "application/x-www-form-urlencoded".

(** The two nested loops of [SetQuery]: [for k, v := range values { for _,
    vv := range v { q.Add(k, vv) } }]. *)
Definition addAll (values q : Values) : Values :=
  map_fold (λ k v q, foldl (λ q vv, Values_Add q k vv) q v) q values.

Definition SetQuery (values : Values) : RequestOption :=
  λ ctx req,
    let q := URL_Query (req_URL req) in
    let q := addAll values q in
    (ctx, Request_setRawQuery req (Values_Encode q), None).

(** ** client_options.go and the constructors of the client *)

Definition ClientOption : Type := Client → Client.

Definition Timeout (timeout : Z) : ClientOption :=
  λ client, mkClient timeout (cl_retrier client) (cl_reqOpts client) (cl_debugTraffic client).

Definition DisableTrafficDebug : ClientOption :=
  λ client, mkClient (cl_Timeout client) (cl_retrier client) (cl_reqOpts client) false.

(** [DefaultTimeout = 15 * time.Second], in nanoseconds. *)
Definition DefaultTimeout : Z := 15 * 1000000000.

Definition New (opts : list ClientOption) : Client :=
  foldl (λ client opt, opt client) (mkClient 0 None [] true) opts.

(** [client.reqOpts = reqOpts[:len(reqOpts):len(reqOpts)]]; the elements
    are those of the argument (the backing array is the subject of
    [Slices] below). *)
Definition SetDefaultReqOpts (reqOpts : list RequestOption) : M unit :=
  client ← getClient;
  setClient (mkClient (cl_Timeout client) (cl_retrier client) reqOpts (cl_debugTraffic client)).

Definition SetRetrier (r : option Retrier) : M unit :=
  client ← getClient;
  setClient (mkClient (cl_Timeout client) r (cl_reqOpts client) (cl_debugTraffic client)).

Definition SetRetry (backoff : list Z) : M unit :=
  SetRetrier (Some (retrier_New backoff DefaultRetryClassifier)).

(** ** The client: the request pipeline *)

(** The loop over the option chain: [for _, reqOpt := range reqOpts { if
    ctx, err = reqOpt(ctx, req); err != nil { return "", err } }]. *)
Fixpoint applyOptions (reqOpts : list RequestOption) (ctx : Ctx) (req : Request)
  : M (error + Ctx * Request) :=
  match reqOpts with
  | [] => mret (inr (ctx, req))
  | reqOpt :: rest =>
      emit (EvOption reqOpt ctx req);;
      let '(ctx, req, err) := reqOpt ctx req in
      match err with
      | Some err => mret (inl err)
      | None => applyOptions rest ctx req
      end
  end.

(** [if client.Timeout == 0 { client.Timeout = DefaultTimeout }] *)
Definition defaultTimeout : M unit :=
  client ← getClient;
  if cl_Timeout client =? 0
  then setClient (mkClient DefaultTimeout (cl_retrier client) (cl_reqOpts client)
                           (cl_debugTraffic client))
  else mret tt.

(** [resp, err = client.Client.Do(req)] *)
Definition dispatch (req : Request) : M (error + Response) :=
  λ st,
    let '(net, out) := http_Do (st_net st) (cl_Timeout (st_client st)) req in
    (out, mkState (st_client st) net (st_frame st), [EvDispatch req out]).

(** [buf.Truncate(buf.Len() - 1)] *)
Fixpoint dropLast (s : string) : string :=
  match s with
  | EmptyString => EmptyString
  | String c EmptyString => EmptyString
  | String c rest => String c (dropLast rest)
  end.

(** The cookie summary of the success record: every cookie as
    [name=value|], the last separator removed. *)
Definition cookieSummary (cookies : list (string * string)) : string :=
  let buf := foldl (λ buf c, buf +:+ c.1 +:+ "=" +:+ c.2 +:+ "|") "" cookies in
  if (0 <? String.length buf)%nat then dropLast buf else buf.

(** Lines 248 to 278 of [do]: read the reader to the end, log, return. *)
Definition do_read (client : Client) (logger : list Field) (resp : Response)
    (reader : BodyStream) : M (string * option error) :=
  emit (EvReadAll reader);;
  match body_err reader with
  | Some err =>
      logError logger "read response body" [FError err; FDuration "proc_time"];;
      mret ("", Some err)
  | None =>
      let result := body_data reader in
      let buf := cookieSummary (resp_Cookies resp) in
      (if cl_debugTraffic client
       then logDebug logger "request success"
              [FString "result" result; FString "set_cookies" buf; FDuration "proc_time"]
       else logDebug logger "request success"
              [FString "set_cookies" buf; FDuration "proc_time"]);;
      mret (result, None)
  end.

(** Lines 229 to 246 of [do]: the status check and the choice of the
    reader; what is deferred on the gzip reader runs when [do_read] is
    over. *)
Definition do_response (client : Client) (logger : list Field) (resp : Response)
  : M (string * option error) :=
  if (resp_StatusCode resp <? 200) || (resp_StatusCode resp >=? 300) then
    let err := ErrHTTP (mkHTTPError (resp_StatusCode resp) (resp_Status resp)) in
    logError logger "bad http status code" [FError err; FDuration "proc_time"];;
    mret ("", Some err)
  else if String.eqb (Header_Get (resp_Header resp) "Content-Encoding") "gzip" then
    emit (EvGzipNewReader (resp_Body resp));;
    match gzip_NewReader (resp_Body resp) with
    | inl err =>
        logError logger "create gzip reader" [FError err; FDuration "proc_time"];;
        mret ("", Some err)
    | inr reader =>
        out ← do_read client logger resp reader;
        emit (EvClose GzipReader);;
        mret out
    end
  else do_read client logger resp (resp_Body resp).

(** [func (client *Client) do(ctx, method, url, body string, reqOpts
    ...RequestOption) (result string, err error)] *)
Definition do (ctx : Ctx) (method url body : string) (reqOpts : list RequestOption)
  : M (string * option error) :=
  emit (EvNewRequest method url body);;
  match http_NewRequest method url body with
  | inl err => mret ("", Some err)
  | inr req =>
      client ← getClient;
      let reqOpts := cl_reqOpts client ++ reqOpts in
      r ← applyOptions reqOpts ctx req;
      match r with
      | inl err => mret ("", Some err)
      | inr (ctx, req) =>
          defaultTimeout;;
          client ← getClient;
          let logger := [FString "method" method;
                         FString "url" (URL_String (req_URL req))] in
          let logger := if cl_debugTraffic client
                        then logger ++ [FString "body" body] else logger in
          r ← dispatch req;
          match r with
          | inl err =>
              logError logger "do http request" [FError err; FDuration "proc_time"];;
              mret ("", Some err)
          | inr resp =>
              out ← do_response client logger resp;
              emit (EvClose RespBody);;
              mret out
          end
      end
  end.

(** ** The retry loop *)

(** Modelled from the spec: [retrier.Run] of
    github.com/eapache/go-resiliency, which the package imports and which
    is not under src/.  Section 4.2: the work is invoked and its outcome
    classified; Succeed (and Fail) stop with that outcome; Retry waits for
    the next entry of the backoff schedule, one entry per retry, and
    invokes the work again; with the schedule exhausted the last outcome is
    returned.  [remaining] is the part of the schedule not yet consumed. *)
Fixpoint Run_loop (classify : option error → Action) (remaining : list Z)
    (work : M (option error)) : M (option error) :=
  ret ← work;
  match classify ret with
  | Succeed | Fail => mret ret
  | Retry =>
      match remaining with
      | [] => mret ret
      | d :: remaining =>
          emit (EvSleep d);;
          Run_loop classify remaining work
      end
  end.

Definition Retrier_Run (r : Retrier) (work : M (option error)) : M (option error) :=
  Run_loop (class r) (backoff r) work.

(** The closure [Do] hands to [Run]: [func() error { if result, err =
    client.do(...); err != nil { return err }; return nil }]. *)
Definition attempt (ctx : Ctx) (method url body : string) (reqOpts : list RequestOption)
  : M (option error) :=
  out ← do ctx method url body reqOpts;
  setFrame out;;
  match out.2 with
  | Some err => mret (Some err)
  | None => mret None
  end.

(** [func (client *Client) Do(ctx, method, url, body string, reqOpts
    ...RequestOption) (result string, err error)]; the closure handed to
    [Run] assigns the named results of [Do]. *)
Definition Do (ctx : Ctx) (method url body : string) (reqOpts : list RequestOption)
  : M (string * option error) :=
  client ← getClient;
  match cl_retrier client with
  | None => do ctx method url body reqOpts
  | Some r =>
      setFrame ("", None);;
      err ← Retrier_Run r (attempt ctx method url body reqOpts);
      frame ← getFrame;
      mret (frame.1, err)
  end.

Definition Options ctx url body reqOpts := Do ctx "OPTIONS" url body reqOpts.
Definition Head ctx url body reqOpts := Do ctx "HEAD" url body reqOpts.
Definition Get ctx url body reqOpts := Do ctx "GET" url body reqOpts.
Definition Post ctx url body reqOpts := Do ctx "POST" url body reqOpts.
Definition Patch ctx url body reqOpts := Do ctx "PATCH" url body reqOpts.
Definition Put ctx url body reqOpts := Do ctx "PUT" url body reqOpts.
Definition Delete ctx url body reqOpts := Do ctx "DELETE" url body reqOpts.

(** ** jsonclient.go *)

(** Lines 86 to 92 of [JSONClient.Do]: [if result != nil && resultStr != "" {
    if err = json.Unmarshal([]byte(resultStr), result); err != nil { ... } }
    return nil]. *)
Definition JSONClient_unmarshal (result : option Value) (resultStr : string)
  : M (option Value * option error) :=
  match result with
  | Some dest =>
      if negb (String.eqb resultStr "") then
        emit (EvUnmarshal JSON resultStr);;
        match json_Unmarshal resultStr dest with
        | (dest, Some err) =>
            logError [] "unmarshal response body" [FError err];;
            mret (Some dest, Some err)
        | (dest, None) => mret (Some dest, None)
        end
      else mret (result, None)
  | None => mret (result, None)
  end.

(** [func (client *JSONClient) Do(ctx, method, url string, body, result
    interface{}, reqOpts ...RequestOption) error].  [result] is [None] for
    the nil interface and otherwise the value its pointer points to; the
    value after the call is returned next to the error. *)
Definition JSONClient_Do (ctx : Ctx) (method url : string) (body : iface Value)
    (result : option Value) (reqOpts : list RequestOption)
  : M (option Value * option error) :=
  r ← match body with
      | INil => mret (inr "")
      | IString bodyValue => mret (inr bodyValue)
      | IRawMessage bodyValue => mret (inr bodyValue)
      | IBytes bodyValue => mret (inr bodyValue)
      | IOther _ =>
          emit (EvMarshal JSON body);;
          match json_Marshal body with
          | inl err =>
              logError [] "marshal request body" [FError err];;
              mret (inl err)
          | inr bodyData => mret (inr bodyData)
          end
      end;
  match r with
  | inl err => mret (result, Some err)
  | inr bodyData =>
      let reqOpts := [SetTypeJSON] ++ reqOpts in
      out ← Do ctx method url bodyData reqOpts;
      match out with
      | (_, Some err) => mret (result, Some err)
      | (resultStr, None) => JSONClient_unmarshal result resultStr
      end
  end.

(** ** xmlclient.go *)

(** Lines 84 to 90 of [XMLClient.Do]: [if result != nil && resultStr != "" {
    if err = xml.Unmarshal([]byte(resultStr), result); err != nil { ... } }
    return nil]. *)
Definition XMLClient_unmarshal (result : option Value) (resultStr : string)
  : M (option Value * option error) :=
  match result with
  | Some dest =>
      if negb (String.eqb resultStr "") then
        emit (EvUnmarshal XML resultStr);;
        match xml_Unmarshal resultStr dest with
        | (dest, Some err) =>
            logError [] "unmarshal response body" [FError err];;
            mret (Some dest, Some err)
        | (dest, None) => mret (Some dest, None)
        end
      else mret (result, None)
  | None => mret (result, None)
  end.

(** [func (client *XMLClient) Do(...)]: the type switch has no case for
    [json.RawMessage], which falls to [xml.Marshal] like any other value. *)
Definition XMLClient_Do (ctx : Ctx) (method url : string) (body : iface Value)
    (result : option Value) (reqOpts : list RequestOption)
  : M (option Value * option error) :=
  r ← match body with
      | INil => mret (inr "")
      | IString bodyValue => mret (inr bodyValue)
      | IBytes bodyValue => mret (inr bodyValue)
      | IRawMessage _ | IOther _ =>
          emit (EvMarshal XML body);;
          match xml_Marshal body with
          | inl err =>
              logError [] "marshal request body" [FError err];;
              mret (inl err)
          | inr bodyData => mret (inr bodyData)
          end
      end;
  match r with
  | inl err => mret (result, Some err)
  | inr bodyData =>
      let reqOpts := [SetTypeXML] ++ reqOpts in
      out ← Do ctx method url bodyData reqOpts;
      match out with
      | (_, Some err) => mret (result, Some err)
      | (resultStr, None) => XMLClient_unmarshal result resultStr
      end
  end.

(** ** Reading event lists *)

Definition isNewRequest (e : Event) : bool :=
  match e with EvNewRequest _ _ _ => true | _ => false end.
Definition isOption (e : Event) : bool :=
  match e with EvOption _ _ _ => true | _ => false end.
Definition isDispatch (e : Event) : bool :=
  match e with EvDispatch _ _ => true | _ => false end.
Definition isLog (e : Event) : bool :=
  match e with EvLog _ => true | _ => false end.
Definition isBodyRead (e : Event) : bool :=
  match e with EvGzipNewReader _ | EvReadAll _ => true | _ => false end.
Definition isSleep (e : Event) : bool :=
  match e with EvSleep _ => true | _ => false end.
Definition isMarshal (e : Event) : bool :=
  match e with EvMarshal _ _ => true | _ => false end.
Definition isUnmarshal (e : Event) : bool :=
  match e with EvUnmarshal _ _ => true | _ => false end.

(** How many events of a kind a computation wrote. *)
Definition count (p : Event → bool) (t : list Event) : nat :=
  length (filter (λ e, p e = true) t).

(** The calls of options an event list holds, in order: the option, and
    the context and request it was called with. *)
Definition optionCalls (t : list Event) : list (RequestOption * Ctx * Request) :=
  omap (λ e, match e with
             | EvOption opt ctx req => Some (opt, ctx, req)
             | _ => None
             end) t.

(** The option chain as section 4.1, step 2 words it: the options are
    applied in order, each is handed the current context and request and
    may replace the context; the first error aborts the chain, so that no
    later option is called.  [chain opts ctx req calls out]: from [ctx] and
    [req] the chain makes the calls [calls] and ends in [out]. *)
Inductive chain : list RequestOption → Ctx → Request →
                  list (RequestOption * Ctx * Request) →
                  error + Ctx * Request → Prop :=
| chain_done ctx req :
    chain [] ctx req [] (inr (ctx, req))
| chain_abort opt rest ctx req ctx' req' err :
    opt ctx req = (ctx', req', Some err) →
    chain (opt :: rest) ctx req [(opt, ctx, req)] (inl err)
| chain_next opt rest ctx req ctx' req' calls out :
    opt ctx req = (ctx', req', None) →
    chain rest ctx' req' calls out →
    chain (opt :: rest) ctx req ((opt, ctx, req) :: calls) out.

(** What lines 235 to 253 make of the body of a response, effects aside:
    the error of [gzip.NewReader] or of [ioutil.ReadAll], or the text. *)
Definition decode (resp : Response) : error + string :=
  let reader :=
    if String.eqb (Header_Get (resp_Header resp) "Content-Encoding") "gzip"
    then gzip_NewReader (resp_Body resp)
    else inr (resp_Body resp) in
  match reader with
  | inl err => inl err
  | inr reader =>
      match body_err reader with
      | Some err => inl err
      | None => inr (body_data reader)
      end
  end.

(** The event of a call of an option. *)
Definition callEvent (c : RequestOption * Ctx * Request) : Event :=
  EvOption c.1.1 c.1.2 c.2.

(** The status check of line 229. *)
Definition badStatus (resp : Response) : bool :=
  (resp_StatusCode resp <? 200) || (resp_StatusCode resp >=? 300).

(** What [do] returns once it holds a response. *)
Definition outcome (resp : Response) : string * option error :=
  if badStatus resp
  then ("", Some (ErrHTTP (mkHTTPError (resp_StatusCode resp) (resp_Status resp))))
  else match decode resp with
       | inl err => ("", Some err)
       | inr text => (text, None)
       end.

(** The state after [if client.Timeout == 0 { ... }]. *)
Definition timedOut (st : State) : State := (defaultTimeout st).1.2.

Definition withNet (st : State) (net : NetState) : State :=
  mkState (st_client st) net (st_frame st).

(** The four ways through [do]. *)
Inductive doCase (ctx : Ctx) (method url body : string) (reqOpts : list RequestOption)
    (st : State) : string * option error → State → list Event → Prop :=
| do_newRequestFails err :
    http_NewRequest method url body = inl err →
    doCase ctx method url body reqOpts st
      ("", Some err) st [EvNewRequest method url body]
| do_optionFails req0 calls err :
    http_NewRequest method url body = inr req0 →
    chain (cl_reqOpts (st_client st) ++ reqOpts) ctx req0 calls (inl err) →
    doCase ctx method url body reqOpts st
      ("", Some err) st (EvNewRequest method url body :: map callEvent calls)
| do_transportFails req0 calls ctx' req net err r :
    http_NewRequest method url body = inr req0 →
    chain (cl_reqOpts (st_client st) ++ reqOpts) ctx req0 calls (inr (ctx', req)) →
    http_Do (st_net st) (cl_Timeout (st_client (timedOut st))) req = (net, inl err) →
    doCase ctx method url body reqOpts st
      ("", Some err) (withNet (timedOut st) net)
      (EvNewRequest method url body :: map callEvent calls ++
       [EvDispatch req (inl err); EvLog r])
| do_responds req0 calls ctx' req net resp t :
    http_NewRequest method url body = inr req0 →
    chain (cl_reqOpts (st_client st) ++ reqOpts) ctx req0 calls (inr (ctx', req)) →
    http_Do (st_net st) (cl_Timeout (st_client (timedOut st))) req = (net, inr resp) →
    count isLog t = 1%nat → count isDispatch t = 0%nat →
    count isNewRequest t = 0%nat → optionCalls t = [] → count isSleep t = 0%nat →
    (badStatus resp = true → count isBodyRead t = 0%nat) →
    count isMarshal t = 0%nat → count isUnmarshal t = 0%nat →
    doCase ctx method url body reqOpts st
      (outcome resp) (withNet (timedOut st) net)
      (EvNewRequest method url body :: map callEvent calls ++
       EvDispatch req (inr resp) :: t ++ [EvClose RespBody]).

(** Lines 64 to 78 of [JSONClient.Do], effects aside: the bytes handed to
    the plain-text call, or the error of [json.Marshal]. *)
Definition JSONClient_bodyData (body : iface Value) : error + string :=
  match body with
  | INil => inr ""
  | IString bodyValue | IRawMessage bodyValue | IBytes bodyValue => inr bodyValue
  | IOther _ => json_Marshal body
  end.

(** Lines 64 to 76 of [XMLClient.Do], effects aside. *)
Definition XMLClient_bodyData (body : iface Value) : error + string :=
  match body with
  | INil => inr ""
  | IString bodyValue | IBytes bodyValue => inr bodyValue
  | IRawMessage _ | IOther _ => xml_Marshal body
  end.

(** Whether the wrappers unmarshal: [result != nil && resultStr != ""]. *)
Definition unmarshals (result : option Value) (resultStr : string) : bool :=
  match result with
  | Some _ => negb (String.eqb resultStr "")
  | None => false
  end.

(** What the wrappers return after the plain-text call returned [out],
    effects aside: the destination and the error. *)
Definition delivered (unmarshal : string → Value → Value * option error)
    (result : option Value) (out : string * option error)
  : option Value * option error :=
  match out with
  | (_, Some err) => (result, Some err)
  | (resultStr, None) =>
      match result with
      | Some dest =>
          if negb (String.eqb resultStr "")
          then (Some (unmarshal resultStr dest).1, (unmarshal resultStr dest).2)
          else (result, None)
      | None => (result, None)
      end
  end.


(** Whether the wrapper reaches its [Unmarshal] after the plain-text call
    returned [out]. *)
Definition reachesUnmarshal (result : option Value) (out : string * option error) : bool :=
  match out.2 with
  | Some _ => false
  | None => unmarshals result out.1
  end.

(** The bodies a wrapper hands on as they are, and their bytes: the nil
    body (no bytes), a string, a [[]byte] and, where [rawMessage] is set, a
    [json.RawMessage]. *)
Definition passesThrough (rawMessage : bool) (body : iface Value) : option string :=
  match body with
  | INil => Some ""
  | IString s | IBytes s => Some s
  | IRawMessage s => if rawMessage then Some s else None
  | IOther _ => None
  end.

(** A content wrapper as section 4.3 words it.  A body that passes through
    is sent as it is, any other is marshalled, and a marshal error is
    returned with nothing sent; the plain-text call is made with the
    content-type option ahead of the caller's options; its error is
    returned; on success, with a destination and a non-empty response, the
    response is unmarshalled into the destination and the error of that is
    returned; otherwise the destination is left alone. *)
Definition WrapperSpec
    (wrapper : Ctx → string → string → iface Value → option Value →
               list RequestOption → M (option Value * option error))
    (contentType : RequestOption)
    (marshal : iface Value → error + string)
    (unmarshal : string → Value → Value * option error)
    (rawMessage : bool) : Prop :=
  ∀ ctx method url body result reqOpts st,
    (∀ e,
       passesThrough rawMessage body = None → marshal body = inl e →
       ∃ t, wrapper ctx method url body result reqOpts st = (result, Some e, st, t) ∧
            count isMarshal t = 1%nat ∧
            count isNewRequest t = 0%nat ∧ count isDispatch t = 0%nat) ∧
    (∀ bodyData resultStr err st2 t2,
       passesThrough rawMessage body = Some bodyData ∨
       (passesThrough rawMessage body = None ∧ marshal body = inr bodyData) →
       Do ctx method url bodyData (contentType :: reqOpts) st = (resultStr, err, st2, t2) →
       ∃ dest' err' t,
         wrapper ctx method url body result reqOpts st = (dest', err', st2, t) ∧
         count isMarshal t = match passesThrough rawMessage body with
                             | Some _ => 0%nat
                             | None => 1%nat
                             end ∧
         count isNewRequest t = count isNewRequest t2 ∧
         count isDispatch t = count isDispatch t2 ∧
         (∀ e, err = Some e →
               dest' = result ∧ err' = Some e ∧ count isUnmarshal t = 0%nat) ∧
         (∀ dest, err = None → result = Some dest → resultStr ≠ "" →
               dest' = Some (unmarshal resultStr dest).1 ∧
               err' = (unmarshal resultStr dest).2 ∧
               count isUnmarshal t = 1%nat) ∧
         (err = None → result = None ∨ resultStr = "" →
               dest' = result ∧ err' = None ∧ count isUnmarshal t = 0%nat)).


End Pipeline.

(** ** Slices and their backing arrays

    [client.reqOpts] is a slice; lines 59, 135 and 200 are the only
    statements that build or extend it.  Here a slice is the triple Go
    keeps (array, length, capacity, with an offset into the array), arrays
    live in a heap, and [append] is the built-in: it writes in place when
    the capacity suffices and moves to a new array otherwise. *)
Module Slices.
Section Slices.
Context {A : Type}.
(** the zero value of the element type, and the capacity the runtime picks
    for a grown slice (from the old capacity and the length needed) *)
Variable zero : A.
Variable growcap : nat → nat → nat.

Record slice := mkSlice { arr : option nat; off : nat; len : nat; cap : nat }.

Definition nilSlice : slice := mkSlice None 0 0 0.

Definition array (h : gmap nat (list A)) (s : slice) : list A :=
  match arr s with
  | Some a => h !!! a
  | None => []
  end.

(** the elements [s[0], ..., s[len(s)-1]] *)
Definition elems (h : gmap nat (list A)) (s : slice) : list A :=
  take (len s) (drop (off s) (array h s)).

(** [s[:len(s):len(s)]] *)
Definition clip (s : slice) : slice := mkSlice (arr s) (off s) (len s) (len s).

(** [append(s, xs...)] *)
Definition append (h : gmap nat (list A)) (s : slice) (xs : list A)
  : gmap nat (list A) * slice :=
  let n := (len s + length xs)%nat in
  if decide (n ≤ cap s)%nat then
    match arr s with
    | Some a =>
        let old := h !!! a in
        (<[a := take (off s + len s) old ++ xs ++ drop (off s + n) old]> h,
         mkSlice (arr s) (off s) n (cap s))
    | None => (h, s)
    end
  else
    let a := fresh (dom h) in
    let c := (n `max` growcap (cap s) n)%nat in
    (<[a := elems h s ++ xs ++ replicate (c - n) zero]> h,
     mkSlice (Some a) 0 n c).

(** A slice that points into an allocated array, within its bounds. *)
Definition valid (h : gmap nat (list A)) (s : slice) : Prop :=
  (len s ≤ cap s)%nat ∧
  match arr s with
  | Some a => ∃ l, h !! a = Some l ∧ (off s + cap s ≤ length l)%nat
  | None => cap s = 0%nat
  end.

(** [client.reqOpts = reqOpts[:len(reqOpts):len(reqOpts)]] (line 59) *)
Definition SetDefaultReqOpts (reqOpts : slice) : slice := clip reqOpts.

(** [reqOpts = append(client.reqOpts, reqOpts...)] (lines 135 and 200),
    with the variadic argument read from the heap *)
Definition appendReqOpts (h : gmap nat (list A)) (stored reqOpts : slice)
  : gmap nat (list A) * slice :=
  append h stored (elems h reqOpts).

(** A run of calls of [do] or [DownloadFile], each with its own variadic
    slice: the heap after them. *)
Definition calls (h : gmap nat (list A)) (stored : slice) (perCall : list slice)
  : gmap nat (list A) :=
  foldl (λ h reqOpts, (appendReqOpts h stored reqOpts).1) h perCall.

End Slices.
End Slices.

(** ** A loopback environment

    A concrete [Env] to run the model on: the transport answers from a
    script, one entry per dispatch; the codecs and gzip are toy formats. *)
Module Loopback.

Definition isControl (c : ascii) : bool :=
  (nat_of_ascii c <? 32)%nat || (nat_of_ascii c =? 127)%nat.

Definition hasPrefix (p s : string) : bool := String.prefix p s.

(** URLs of the shape [scheme://host/path?query#fragment]. *)
Definition parseURL (s : string) : URL :=
  let '(rest, fragment) := cut "#" s in
  let '(rest, query) := cut "?" rest in
  let '(scheme, rest) := if contains ":" rest then cut ":" rest else ("", rest) in
  if hasPrefix "//" rest then
    let rest := String.substring 2 (String.length rest - 2) rest in
    let '(host, path) := cut "/" rest in
    mkURL scheme host (if contains "/" rest then "/" +:+ path else "") query fragment
  else mkURL scheme "" rest query fragment.

Definition newRequest (method url body : string) : error + Request :=
  let method := if String.eqb method "" then "GET" else method in
  if negb (forallb validHeaderFieldByte (list_ascii_of_string method))
  then inl (ErrExt "net/http: invalid method")
  else if existsb isControl (list_ascii_of_string url)
  then inl (ErrExt "net/url: invalid control character in URL")
  else inr (mkRequest method (parseURL url) ∅ body).

(** toy gzip: a compressed stream is [GZ:] followed by the plain bytes *)
Definition gunzip (b : BodyStream) : error + BodyStream :=
  if hasPrefix "GZ:" (body_data b)
  then inr (mkBody (String.substring 3 (String.length (body_data b) - 3) (body_data b))
                   (body_err b))
  else inl (ErrExt "gzip: invalid header").

(** toy codec: a value is a string, written between two marks *)
Definition marshal (l r : string) (v : iface string) : error + string :=
  match v with
  | INil => inr "null"
  | IString s | IOther s => inr (l +:+ s +:+ r)
  | IRawMessage b | IBytes b =>
      if hasPrefix l b then inr b else inl (ErrExt "invalid raw message")
  end.

Definition unmarshal (l r : string) (data dest : string) : string * option error :=
  if hasPrefix l data
  then (String.substring (String.length l)
          (String.length data - String.length l - String.length r) data, None)
  else (dest, Some (ErrExt "invalid character")).

Definition env : Env := {|
  Ctx := list string;
  Value := string;
  NetState := list (error + Response);
  http_NewRequest := newRequest;
  http_Do := λ net _ _,
    match net with
    | [] => ([], inl (ErrExt "connection refused"))
    | out :: net => (net, out)
    end;
  gzip_NewReader := gunzip;
  resp_Cookies := λ _, [];
  json_Marshal := marshal "[" "]";
  json_Unmarshal := unmarshal "[" "]";
  xml_Marshal := marshal "<v>" "</v>";
  xml_Unmarshal := unmarshal "<v>" "</v>"
|}.

Definition client0 : @Client env := New [].
Definition state0 (net : list (error + Response)) : @State env :=
  mkState client0 net ("", None).

Definition response (code : Z) (status : string) (h : Header) (body : string) : Response :=
  mkResponse code status h (mkBody body None).

End Loopback.

(** ** Runs of the loopback environment

    Concrete calls, used below to try the statements on. *)
Module Scenarios.
Import Loopback.

Definition url : string := "http://h/p".
Definition request : Request := mkRequest "GET" (parseURL url) ∅ "".

(** a 404 *)
Definition notFound : Response := response 404 "404 Not Found" ∅ "nope".
Definition run404 := @do env [] "GET" url "" [] (state0 [inr notFound]).

(** a 200 whose body is gzip, under [Content-Encoding: gzip] *)
Definition gzipped : Response :=
  response 200 "200 OK" {[ "Content-Encoding" := ["gzip"] ]} "GZ:hello".
Definition runGzip := @do env [] "GET" url "" [] (state0 [inr gzipped]).

(** a 200 that announces gzip and sends something else *)
Definition notGzip : Response :=
  response 200 "200 OK" {[ "Content-Encoding" := ["gzip"] ]} "oops".
Definition runNotGzip := @do env [] "GET" url "" [] (state0 [inr notGzip]).

(** a plain 200 *)
Definition ok : Response := response 200 "200 OK" ∅ "world".
Definition run200 := @do env [] "GET" url "" [] (state0 [inr ok]).

(** an option that tags the context, one that rejects the request *)
Definition tag (name : string) : @RequestOption env :=
  λ ctx req, (name :: ctx, Request_setHeader req "X-Tag" name, None).
Definition reject : @RequestOption env :=
  λ ctx req, (ctx, req, Some (ErrExt "rejected")).

(** a client with the default option [tag "a"] *)
Definition tagged (net : list (error + Response)) : @State env :=
  mkState (mkClient 0 None [tag "a"] true) net ("", None).
Definition runRejected :=
  @do env [] "GET" url "" [tag "b"; reject; tag "c"] (tagged [inr ok]).

(** a method that [http.NewRequest] refuses *)
Definition runBadMethod := @do env [] "BAD METHOD" url "" [] (state0 [inr ok]).

(** two retries, 10ms apart, of a request that cannot be built *)
Definition schedule : list Z := [10000000; 10000000].

(** two retries against a server that answers 503 every time *)
Definition unavailable : Response :=
  response 503 "503 Service Unavailable" ∅ "retry-me".
Definition runRetry503 :=
  @Do env [] "GET" url "" []
      (@SetRetry env schedule
                 (state0 [inr unavailable; inr unavailable; inr unavailable])).1.2.

(** the JSON wrapper, handed a raw message that is not JSON *)
Definition runRawMessage :=
  @JSONClient_Do env [] "POST" url (IRawMessage "{") None [] (state0 [inr ok]).

(** the JSON wrapper against a 404, with a destination *)
Definition runJSON404 :=
  @JSONClient_Do env [] "GET" url INil (Some "before") [] (state0 [inr notFound]).

(** a heap with one array of two options, by name, and the slice of it *)
Definition heap : gmap nat (list string) := {[ 1%nat := ["a"; "b"] ]}.
Definition defaults : Slices.slice := Slices.mkSlice (Some 1%nat) 0 2 2.
Definition growcap (old needed : nat) : nat := (2 * needed)%nat.
Definition more : Slices.slice := Slices.mkSlice (Some 1%nat) 1 1 1.

End Scenarios.
(** * The rest of the package *)

(** ** error.go: the message of an [HTTPError] *)

(** [%v] of an [int]: its decimal digits, after a minus sign below zero. *)
Definition formatInt (n : Z) : string := NilZero.string_of_int (Z.to_int n).

(** [func (e *HTTPError) Error() string]:
    [fmt.Sprintf("HTTP Error: %v, %v", e.StatusCode, e.StatusText)] *)
Definition HTTPError_Error (e : HTTPError) : string :=
  "HTTP Error: " +:+ formatInt (StatusCode e) +:+ ", " +:+ StatusText e.

Section Methods.
Context `{E : Env}.

(** ** jsonclient.go and xmlclient.go: one method per verb *)

Definition JSONClient_Options ctx url body result reqOpts :=
  JSONClient_Do ctx "OPTIONS" url body result reqOpts.
Definition JSONClient_Head ctx url body result reqOpts :=
  JSONClient_Do ctx "HEAD" url body result reqOpts.
Definition JSONClient_Get ctx url body result reqOpts :=
  JSONClient_Do ctx "GET" url body result reqOpts.
Definition JSONClient_Post ctx url body result reqOpts :=
  JSONClient_Do ctx "POST" url body result reqOpts.
Definition JSONClient_Patch ctx url body result reqOpts :=
  JSONClient_Do ctx "PATCH" url body result reqOpts.
Definition JSONClient_Put ctx url body result reqOpts :=
  JSONClient_Do ctx "PUT" url body result reqOpts.
Definition JSONClient_Delete ctx url body result reqOpts :=
  JSONClient_Do ctx "DELETE" url body result reqOpts.

Definition XMLClient_Options ctx url body result reqOpts :=
  XMLClient_Do ctx "OPTIONS" url body result reqOpts.
Definition XMLClient_Head ctx url body result reqOpts :=
  XMLClient_Do ctx "HEAD" url body result reqOpts.
Definition XMLClient_Get ctx url body result reqOpts :=
  XMLClient_Do ctx "GET" url body result reqOpts.
Definition XMLClient_Post ctx url body result reqOpts :=
  XMLClient_Do ctx "POST" url body result reqOpts.
Definition XMLClient_Patch ctx url body result reqOpts :=
  XMLClient_Do ctx "PATCH" url body result reqOpts.
Definition XMLClient_Put ctx url body result reqOpts :=
  XMLClient_Do ctx "PUT" url body result reqOpts.
Definition XMLClient_Delete ctx url body result reqOpts :=
  XMLClient_Do ctx "DELETE" url body result reqOpts.

(** The verb methods of [Client], [JSONClient] and [XMLClient], each with
    the method it names. *)
Definition Client_verbs
  : list (string * (Ctx → string → string → list RequestOption →
                    M (string * option error))) :=
  [("OPTIONS", Options); ("HEAD", Head); ("GET", Get); ("POST", Post);
   ("PATCH", Patch); ("PUT", Put); ("DELETE", Delete)].

Definition wrapper_verbs
  : list (string * (Ctx → string → iface Value → option Value →
                    list RequestOption → M (option Value * option error))) :=
  [("OPTIONS", JSONClient_Options); ("HEAD", JSONClient_Head);
   ("GET", JSONClient_Get); ("POST", JSONClient_Post);
   ("PATCH", JSONClient_Patch); ("PUT", JSONClient_Put);
   ("DELETE", JSONClient_Delete);
   ("OPTIONS", XMLClient_Options); ("HEAD", XMLClient_Head);
   ("GET", XMLClient_Get); ("POST", XMLClient_Post);
   ("PATCH", XMLClient_Patch); ("PUT", XMLClient_Put);
   ("DELETE", XMLClient_Delete)].

(** ** The events of [do], written out *)

(** The logger of lines 212 to 218 of [do]. *)
Definition doLogger (client : Client) (method body : string) (req : Request)
  : list Field :=
  let logger := [FString "method" method;
                 FString "url" (URL_String (req_URL req))] in
  if cl_debugTraffic client then logger ++ [FString "body" body] else logger.

(** The events of lines 248 to 278, from the reader on. *)
Definition readEvents (client : Client) (logger : list Field) (resp : Response)
    (reader : BodyStream) : list Event :=
  [EvReadAll reader;
   EvLog match body_err reader with
         | Some err =>
             mkLog ErrorLevel "read response body"
                   (logger ++ [FError err; FDuration "proc_time"])
         | None =>
             mkLog DebugLevel "request success"
                   (logger ++
                    (if cl_debugTraffic client
                     then [FString "result" (body_data reader)] else []) ++
                    [FString "set_cookies" (cookieSummary (resp_Cookies resp));
                     FDuration "proc_time"])
         end].

(** The events of lines 229 to 278, from the response on. *)
Definition responseEvents (client : Client) (logger : list Field) (resp : Response)
  : list Event :=
  if badStatus resp then
    [EvLog (mkLog ErrorLevel "bad http status code"
              (logger ++ [FError (ErrHTTP (mkHTTPError (resp_StatusCode resp)
                                                       (resp_Status resp)));
                          FDuration "proc_time"]))]
  else if String.eqb (Header_Get (resp_Header resp) "Content-Encoding") "gzip" then
    EvGzipNewReader (resp_Body resp) ::
    match gzip_NewReader (resp_Body resp) with
    | inl err =>
        [EvLog (mkLog ErrorLevel "create gzip reader"
                  (logger ++ [FError err; FDuration "proc_time"]))]
    | inr reader => readEvents client logger resp reader ++ [EvClose GzipReader]
    end
  else readEvents client logger resp (resp_Body resp).

Definition isClose (e : Event) : bool :=
  match e with EvClose _ => true | _ => false end.

(** The waits an event list holds, in order. *)
Definition sleeps (t : list Event) : list Z :=
  omap (λ e, match e with EvSleep d => Some d | _ => None end) t.

(** What [do] does, by the way it takes. *)
Inductive doRun (ctx : Ctx) (method url body : string) (reqOpts : list RequestOption)
    (st : State) : string * option error → State → list Event → Prop :=
| run_newRequestFails err :
    http_NewRequest method url body = inl err →
    doRun ctx method url body reqOpts st
      ("", Some err) st [EvNewRequest method url body]
| run_optionFails req0 calls err :
    http_NewRequest method url body = inr req0 →
    chain (cl_reqOpts (st_client st) ++ reqOpts) ctx req0 calls (inl err) →
    doRun ctx method url body reqOpts st
      ("", Some err) st (EvNewRequest method url body :: map callEvent calls)
| run_transportFails req0 calls ctx' req net err :
    http_NewRequest method url body = inr req0 →
    chain (cl_reqOpts (st_client st) ++ reqOpts) ctx req0 calls (inr (ctx', req)) →
    http_Do (st_net st) (cl_Timeout (st_client (timedOut st))) req = (net, inl err) →
    doRun ctx method url body reqOpts st
      ("", Some err) (withNet (timedOut st) net)
      (EvNewRequest method url body :: map callEvent calls ++
       [EvDispatch req (inl err);
        EvLog (mkLog ErrorLevel "do http request"
                 (doLogger (st_client (timedOut st)) method body req ++
                  [FError err; FDuration "proc_time"]))])
| run_responds req0 calls ctx' req net resp :
    http_NewRequest method url body = inr req0 →
    chain (cl_reqOpts (st_client st) ++ reqOpts) ctx req0 calls (inr (ctx', req)) →
    http_Do (st_net st) (cl_Timeout (st_client (timedOut st))) req = (net, inr resp) →
    doRun ctx method url body reqOpts st
      (outcome resp) (withNet (timedOut st) net)
      (EvNewRequest method url body :: map callEvent calls ++
       EvDispatch req (inr resp) ::
       responseEvents (st_client (timedOut st))
         (doLogger (st_client (timedOut st)) method body req) resp ++
       [EvClose RespBody]).

End Methods.

(** ** DownloadFile *)

(** The file system, as far as [DownloadFile] touches it. *)
Class FileSystem := {
  FileState : Type;
  (** [os.Create(outFile)]: the error, if any; the file is then open *)
  os_Create : FileState → string → FileState * option error;
  (** [io.Copy(out, resp.Body)]: the bytes written and the error *)
  io_Copy : FileState → string → BodyStream → FileState * (Z * option error);
  (** [out.Close()] *)
  file_Close : FileState → string → FileState
}.

Section Download.
Context `{E : Env} `{F : FileSystem}.

(** The events of [DownloadFile]: those of the pipeline, and the calls into
    the file system. *)
Inductive FEvent :=
| FPipeline (e : Event)
| FCreate (outFile : string)
| FCopy (outFile : string) (body : BodyStream)
| FCloseFile (outFile : string).

(** State passing over the client and the file system. *)
Definition MF (A : Type) : Type :=
  State * FileState → A * (State * FileState) * list FEvent.

#[export] Instance MF_ret : MRet MF := λ A a s, (a, s, []).
#[export] Instance MF_bind : MBind MF := λ A B f m s,
  let '(a, s1, t1) := m s in
  let '(b, s2, t2) := f a s1 in
  (b, s2, t1 ++ t2).

(** A step of the pipeline, inside [DownloadFile]. *)
Definition pipeline {A} (m : M A) : MF A :=
  λ s, let '(a, st, t) := m s.1 in (a, (st, s.2), map FPipeline t).

Definition create (outFile : string) : MF (option error) :=
  λ s, let '(fs, err) := os_Create s.2 outFile in
       (err, (s.1, fs), [FCreate outFile]).
Definition copy (outFile : string) (body : BodyStream) : MF (Z * option error) :=
  λ s, let '(fs, r) := io_Copy s.2 outFile body in
       (r, (s.1, fs), [FCopy outFile body]).
Definition closeFile (outFile : string) : MF unit :=
  λ s, (tt, (s.1, file_Close s.2 outFile), [FCloseFile outFile]).

(** Lines 166 to 184 of [DownloadFile]: create the file, copy the body
    into it, log; the deferred [out.Close()] runs last. *)
Definition DownloadFile_save (logger : list Field) (outFile : string)
    (resp : Response) : MF (option error) :=
  err ← create outFile;
  match err with
  | Some err =>
      pipeline (logError logger "create download file"
                  [FError err; FDuration "proc_time"]);;
      mret (Some err)
  | None =>
      w ← copy outFile (resp_Body resp);
      r ← match w with
          | (_, Some err) =>
              pipeline (logError logger "copy response data to download file"
                          [FError err; FDuration "proc_time"]);;
              mret (Some err)
          | (written, None) =>
              pipeline (logDebug logger "request success"
                          [FInt64 "file_size" written; FDuration "proc_time"]);;
              mret None
          end;
      closeFile outFile;;
      mret r
  end.

(** [func (client *Client) DownloadFile(ctx, url, outFile string, reqOpts
    ...RequestOption) (err error)].  The request is built with the nil
    body, which [http.NewRequest] treats as the empty one. *)
Definition DownloadFile (ctx : Ctx) (url outFile : string)
    (reqOpts : list RequestOption) : MF (option error) :=
  let method := "GET" in
  pipeline (emit (EvNewRequest method url ""));;
  match http_NewRequest method url "" with
  | inl err => mret (Some err)
  | inr req =>
      client ← pipeline getClient;
      let reqOpts := cl_reqOpts client ++ reqOpts in
      r ← pipeline (applyOptions reqOpts ctx req);
      match r with
      | inl err => mret (Some err)
      | inr (ctx, req) =>
          pipeline defaultTimeout;;
          let logger := [FString "method" method;
                         FString "url" (URL_String (req_URL req));
                         FString "out_file" outFile] in
          r ← pipeline (dispatch req);
          match r with
          | inl err =>
              pipeline (logError logger "do http request"
                          [FError err; FDuration "proc_time"]);;
              mret (Some err)
          | inr resp =>
              out ← (if (resp_StatusCode resp <? 200) || (resp_StatusCode resp >=? 300)
                     then
                       let err := ErrHTTP (mkHTTPError (resp_StatusCode resp)
                                                       (resp_Status resp)) in
                       pipeline (logError logger "bad http status code"
                                   [FError err; FDuration "proc_time"]);;
                       mret (Some err)
                     else DownloadFile_save logger outFile resp);
              pipeline (emit (EvClose RespBody));;
              mret out
          end
      end
  end.

Definition isFile (e : FEvent) : bool :=
  match e with FPipeline _ => false | _ => true end.

(** The pipeline events of a download, in order. *)
Definition pipelineEvents (t : list FEvent) : list Event :=
  omap (λ e, match e with FPipeline e => Some e | _ => None end) t.

(** The calls into the file system of a download, in order. *)
Definition fileEvents (t : list FEvent) : list FEvent :=
  filter (λ e, isFile e = true) t.

(** The logger of lines 151 to 155 of [DownloadFile]. *)
Definition downloadLogger (url outFile : string) (req : Request) : list Field :=
  [FString "method" "GET"; FString "url" (URL_String (req_URL req));
   FString "out_file" outFile].

Definition errorRecord (logger : list Field) (msg : string) (err : error) : Event :=
  EvLog (mkLog ErrorLevel msg (logger ++ [FError err; FDuration "proc_time"])).

(** The ways through [DownloadFile]. *)
Inductive downloadRun (ctx : Ctx) (url outFile : string)
    (reqOpts : list RequestOption) (st : State) (fs : FileState)
  : option error → State * FileState → list FEvent → Prop :=
| download_newRequestFails err :
    http_NewRequest "GET" url "" = inl err →
    downloadRun ctx url outFile reqOpts st fs
      (Some err) (st, fs) [FPipeline (EvNewRequest "GET" url "")]
| download_optionFails req0 calls err :
    http_NewRequest "GET" url "" = inr req0 →
    chain (cl_reqOpts (st_client st) ++ reqOpts) ctx req0 calls (inl err) →
    downloadRun ctx url outFile reqOpts st fs
      (Some err) (st, fs)
      (map FPipeline (EvNewRequest "GET" url "" :: map callEvent calls))
| download_transportFails req0 calls ctx' req net err :
    http_NewRequest "GET" url "" = inr req0 →
    chain (cl_reqOpts (st_client st) ++ reqOpts) ctx req0 calls (inr (ctx', req)) →
    http_Do (st_net st) (cl_Timeout (st_client (timedOut st))) req = (net, inl err) →
    downloadRun ctx url outFile reqOpts st fs
      (Some err) (withNet (timedOut st) net, fs)
      (map FPipeline
         (EvNewRequest "GET" url "" :: map callEvent calls ++
          [EvDispatch req (inl err);
           errorRecord (downloadLogger url outFile req) "do http request" err]))
| download_badStatus req0 calls ctx' req net resp :
    http_NewRequest "GET" url "" = inr req0 →
    chain (cl_reqOpts (st_client st) ++ reqOpts) ctx req0 calls (inr (ctx', req)) →
    http_Do (st_net st) (cl_Timeout (st_client (timedOut st))) req = (net, inr resp) →
    badStatus resp = true →
    let err := ErrHTTP (mkHTTPError (resp_StatusCode resp) (resp_Status resp)) in
    downloadRun ctx url outFile reqOpts st fs
      (Some err) (withNet (timedOut st) net, fs)
      (map FPipeline
         (EvNewRequest "GET" url "" :: map callEvent calls ++
          [EvDispatch req (inr resp);
           errorRecord (downloadLogger url outFile req) "bad http status code" err;
           EvClose RespBody]))
| download_createFails req0 calls ctx' req net resp fs1 err :
    http_NewRequest "GET" url "" = inr req0 →
    chain (cl_reqOpts (st_client st) ++ reqOpts) ctx req0 calls (inr (ctx', req)) →
    http_Do (st_net st) (cl_Timeout (st_client (timedOut st))) req = (net, inr resp) →
    badStatus resp = false →
    os_Create fs outFile = (fs1, Some err) →
    downloadRun ctx url outFile reqOpts st fs
      (Some err) (withNet (timedOut st) net, fs1)
      (map FPipeline
         (EvNewRequest "GET" url "" :: map callEvent calls ++
          [EvDispatch req (inr resp)]) ++
       [FCreate outFile;
        FPipeline (errorRecord (downloadLogger url outFile req)
                     "create download file" err);
        FPipeline (EvClose RespBody)])
| download_copies req0 calls ctx' req net resp fs1 fs2 written err :
    http_NewRequest "GET" url "" = inr req0 →
    chain (cl_reqOpts (st_client st) ++ reqOpts) ctx req0 calls (inr (ctx', req)) →
    http_Do (st_net st) (cl_Timeout (st_client (timedOut st))) req = (net, inr resp) →
    badStatus resp = false →
    os_Create fs outFile = (fs1, None) →
    io_Copy fs1 outFile (resp_Body resp) = (fs2, (written, err)) →
    downloadRun ctx url outFile reqOpts st fs
      err (withNet (timedOut st) net, file_Close fs2 outFile)
      (map FPipeline
         (EvNewRequest "GET" url "" :: map callEvent calls ++
          [EvDispatch req (inr resp)]) ++
       [FCreate outFile;
        FCopy outFile (resp_Body resp);
        FPipeline
          match err with
          | Some err =>
              errorRecord (downloadLogger url outFile req)
                "copy response data to download file" err
          | None =>
              EvLog (mkLog DebugLevel "request success"
                       (downloadLogger url outFile req ++
                        [FInt64 "file_size" written; FDuration "proc_time"]))
          end;
        FCloseFile outFile;
        FPipeline (EvClose RespBody)]).

End Download.

(** ** A file system for the loopback environment *)
Module Files.
Import Loopback.

(** Files by path, each with what was written to it.  [os.Create] refuses
    the empty path and truncates; [io.Copy] writes the bytes of the stream
    and returns its read error. *)
Definition fileSystem : FileSystem := {|
  FileState := gmap string string;
  os_Create := λ fs path,
    if String.eqb path ""
    then (fs, Some (ErrExt "open : no such file or directory"))
    else (<[path := ""]> fs, None);
  io_Copy := λ fs path body,
    (<[path := body_data body]> fs,
     (Z.of_nat (String.length (body_data body)), body_err body));
  file_Close := λ fs _, fs
|}.

(** a download of a page, and one of a page that is not there *)
Definition page : Response := response 200 "200 OK" ∅ "world".
Definition missing : Response := response 404 "404 Not Found" ∅ "nope".
Definition old : gmap string string := {[ "out.txt" := "old" ]}.
Definition download (resp : Response) :=
  @DownloadFile env fileSystem [] "http://h/p" "out.txt" [] (state0 [inr resp], old).

End Files.


(** * Properties *)

Section Properties.
Context `{E : Env}.

#[local] Arguments count : simpl never.
#[local] Arguments optionCalls : simpl never.

(** ** Running the monad *)

Lemma bind_run {A B} (m : M A) (f : A → M B) st :
  (m ≫= f) st =
  let '(a, st1, t1) := m st in
  let '(b, st2, t2) := f a st1 in
  (b, st2, t1 ++ t2).
Proof. reflexivity. Qed.

Lemma ret_run {A} (a : A) (st : State) : (mret a : M A) st = (a, st, []).
Proof. reflexivity. Qed.

Lemma count_app p (t1 t2 : list Event) : count p (t1 ++ t2) = (count p t1 + count p t2)%nat.
Proof. unfold count. by rewrite filter_app, length_app. Qed.

Lemma count_cons p e (t : list Event) :
  count p (e :: t) = ((if p e then 1 else 0) + count p t)%nat.
Proof.
  unfold count. destruct (p e) eqn:He.
  - by rewrite filter_cons_True.
  - rewrite filter_cons_False; [done | congruence].
Qed.

Lemma count_nil p : count p (@nil Event) = 0%nat.
Proof. reflexivity. Qed.

(** ** The retry classifier *)

(** C5: the default classifier answers Succeed exactly on the nil error
    and Retry on every other error, whatever its kind; it never answers
    Fail. *)
Theorem DefaultRetryClassifier_classify (e : option error) :
  (Classify DefaultRetryClassifier e = Succeed ↔ e = None) ∧
  (e ≠ None → Classify DefaultRetryClassifier e = Retry) ∧
  (∀ e1 e2 : error,
     Classify DefaultRetryClassifier (Some e1) = Classify DefaultRetryClassifier (Some e2)) ∧
  Classify DefaultRetryClassifier e ≠ Fail.
Proof.
  destruct e as [e|]; cbn; repeat split; try congruence; try discriminate.
Qed.

(** ** The option chain *)

Lemma optionCalls_app (t1 t2 : list Event) :
  optionCalls (t1 ++ t2) = optionCalls t1 ++ optionCalls t2.
Proof. apply omap_app. Qed.

Lemma optionCalls_cons e (t : list Event) :
  optionCalls (e :: t) =
  match e with
  | EvOption opt ctx req => [(opt, ctx, req)]
  | _ => []
  end ++ optionCalls t.
Proof. by destruct e. Qed.

Lemma optionCalls_callEvent calls : optionCalls (map callEvent calls) = calls.
Proof.
  induction calls as [|[[opt ctx] req] calls IH]; [done|].
  cbn [map]. rewrite optionCalls_cons, IH. done.
Qed.

Lemma count_callEvent p calls :
  (∀ opt ctx req, p (EvOption opt ctx req) = false) →
  count p (map callEvent calls) = 0%nat.
Proof.
  intros Hp. induction calls as [|[[opt ctx] req] calls IH]; [done|].
  cbn [map]. rewrite count_cons, IH. unfold callEvent; cbn. by rewrite Hp.
Qed.

(** The loop of [do] over the options makes the calls of [chain], leaves
    the state alone and writes nothing but these calls. *)
Lemma applyOptions_chain opts ctx req st :
  ∃ calls out,
    applyOptions opts ctx req st = (out, st, map callEvent calls) ∧
    chain opts ctx req calls out.
Proof.
  revert ctx req. induction opts as [|opt rest IH]; intros ctx req.
  - exists [], (inr (ctx, req)). split; [done | constructor].
  - cbn [applyOptions]. rewrite bind_run. cbn.
    destruct (opt ctx req) as [[ctx' req'] [err|]] eqn:Hopt.
    + exists [(opt, ctx, req)], (inl err). split; [done|].
      by eapply chain_abort.
    + destruct (IH ctx' req') as (calls & out & Hrun & Hchain).
      exists ((opt, ctx, req) :: calls), out. rewrite Hrun. split; [done|].
      by eapply chain_next.
Qed.

Lemma chain_functional opts ctx req calls1 out1 calls2 out2 :
  chain opts ctx req calls1 out1 → chain opts ctx req calls2 out2 →
  calls1 = calls2 ∧ out1 = out2.
Proof.
  intros H1. revert calls2 out2.
  induction H1 as [ctx req | opt rest ctx req ctx' req' err Hopt
                  | opt rest ctx req ctx' req' calls out Hopt Hrest IH];
    intros calls2 out2 H2; inversion H2; subst.
  - done.
  - split; [done | congruence].
  - congruence.
  - congruence.
  - match goal with
    | Hb : opt ctx req = (?c2, ?r2, None) |- _ =>
        assert (ctx' = c2 ∧ req' = r2) as [-> ->] by (split; congruence)
    end.
    match goal with
    | Hc : chain rest _ _ _ _ |- _ => destruct (IH _ _ Hc) as [-> ->]
    end.
    done.
Qed.

(** The options a chain calls are an initial part of the list, in order. *)
Lemma chain_prefix opts ctx req calls out :
  chain opts ctx req calls out → (map (λ c, c.1.1) calls) `prefix_of` opts.
Proof.
  induction 1; cbn.
  - done.
  - apply prefix_cons, prefix_nil.
  - by apply prefix_cons.
Qed.

(** ** The pipeline, branch by branch *)

Lemma do_read_run client logger resp reader st :
  ∃ t, do_read client logger resp reader st =
         (match body_err reader with
          | Some err => ("", Some err)
          | None => (body_data reader, None)
          end, st, EvReadAll reader :: t) ∧
       count isLog t = 1%nat ∧ count isDispatch t = 0%nat ∧
       count isNewRequest t = 0%nat ∧ optionCalls t = [] ∧
       count isSleep t = 0%nat ∧
       count isMarshal t = 0%nat ∧ count isUnmarshal t = 0%nat.
Proof.
  unfold do_read. rewrite bind_run. cbn.
  destruct (body_err reader) as [err|]; [|destruct (cl_debugTraffic client)];
    cbn; eexists; (split; [reflexivity|]); cbn; done.
Qed.

Lemma do_response_run client logger resp st :
  ∃ t, do_response client logger resp st = (outcome resp, st, t) ∧
       count isLog t = 1%nat ∧ count isDispatch t = 0%nat ∧
       count isNewRequest t = 0%nat ∧ optionCalls t = [] ∧
       count isSleep t = 0%nat ∧
       (badStatus resp = true → count isBodyRead t = 0%nat) ∧
       count isMarshal t = 0%nat ∧ count isUnmarshal t = 0%nat.
Proof.
  unfold do_response, outcome, decode, badStatus.
  destruct ((resp_StatusCode resp <? 200) || (resp_StatusCode resp >=? 300)) eqn:Hs.
  { cbn. eexists. split; [reflexivity|]. cbn. done. }
  destruct (String.eqb (Header_Get (resp_Header resp) "Content-Encoding") "gzip").
  - rewrite bind_run. cbn.
    destruct (gzip_NewReader (resp_Body resp)) as [err|reader].
    + cbn. eexists. split; [reflexivity|]. cbn. repeat split; done.
    + rewrite bind_run.
      destruct (do_read_run client logger resp reader st)
        as (t & -> & Hlog & Hd & Hn & Ho & Hsl & Hm & Hu).
      cbn. eexists. split.
      { destruct (body_err reader); reflexivity. }
      rewrite !count_cons, !count_app, !optionCalls_cons, optionCalls_app,
        Hlog, Hd, Hn, Hsl, Ho, Hm, Hu.
      cbn. repeat split; done.
  - destruct (do_read_run client logger resp (resp_Body resp) st)
      as (t & -> & Hlog & Hd & Hn & Ho & Hsl & Hm & Hu).
    eexists. split.
    { destruct (body_err (resp_Body resp)); reflexivity. }
    rewrite !count_cons, optionCalls_cons, Hlog, Hd, Hn, Hsl, Ho, Hm, Hu.
    cbn. repeat split; done.
Qed.

Lemma do_cases ctx method url body reqOpts st :
  ∃ out st' t, do ctx method url body reqOpts st = (out, st', t) ∧
               doCase ctx method url body reqOpts st out st' t.
Proof.
  unfold do. rewrite bind_run. cbn.
  destruct (http_NewRequest method url body) as [err|req0] eqn:Hnew.
  { cbn. do 3 eexists. split; [reflexivity|]. by constructor. }
  rewrite bind_run. cbn. rewrite bind_run.
  destruct (applyOptions_chain (cl_reqOpts (st_client st) ++ reqOpts) ctx req0 st)
    as (calls & r & -> & Hchain).
  destruct r as [err|[ctx' req]].
  { cbn. do 3 eexists. split; [by rewrite app_nil_r|]. by econstructor. }
  rewrite bind_run.
  assert (∃ st1, defaultTimeout st = (tt, st1, []) ∧ st1 = timedOut st ∧
                 st_net st1 = st_net st) as (st1 & -> & Hst1 & Hnet).
  { unfold timedOut, defaultTimeout. rewrite bind_run. cbn.
    destruct (cl_Timeout (st_client st) =? 0); cbn; eexists; done. }
  rewrite bind_run. cbn. rewrite bind_run. unfold dispatch at 1.
  rewrite Hnet.
  destruct (http_Do (st_net st) (cl_Timeout (st_client st1)) req)
    as [net [err|resp]] eqn:Hdo.
  - cbn. do 3 eexists. split; [reflexivity|]. subst st1.
    eapply do_transportFails; eauto.
  - rewrite bind_run.
    match goal with
    | |- context [do_response ?c ?l resp ?s] =>
        destruct (do_response_run c l resp s)
          as (t & -> & Hlog & Hd & Hn & Ho & Hsl & Hb & Hm & Hu)
    end.
    cbn. do 3 eexists. split; [reflexivity|]. subst st1.
    rewrite app_nil_r.
    eapply do_responds; eauto.
Qed.

Lemma do_inv ctx method url body reqOpts st out st' t :
  do ctx method url body reqOpts st = (out, st', t) →
  doCase ctx method url body reqOpts st out st' t.
Proof.
  intros Hdo. destruct (do_cases ctx method url body reqOpts st)
    as (out0 & st0 & t0 & Hrun & Hcase).
  rewrite Hrun in Hdo. by simplify_eq.
Qed.

Lemma count_zero_not_in p (t : list Event) e :
  count p t = 0%nat → e ∈ t → p e = false.
Proof.
  intros Hc Hin. destruct (p e) eqn:Hp; [|done].
  assert (e ∈ filter (λ e, p e = true) t) as Hf by (by apply list_elem_of_filter).
  unfold count in Hc. apply length_zero_iff_nil in Hc. rewrite Hc in Hf.
  by apply not_elem_of_nil in Hf.
Qed.

Lemma callEvent_isOption calls e : e ∈ map callEvent calls → isOption e = true.
Proof.
  intros Hin. apply list_elem_of_fmap in Hin as ([[opt ctx] req] & -> & _). done.
Qed.

(** Counting the events of a run: unfold the list, use what is known of
    its parts. *)
Ltac count_events :=
  repeat first
    [ rewrite count_cons | rewrite count_app | rewrite count_nil
    | rewrite optionCalls_cons | rewrite optionCalls_app
    | rewrite optionCalls_callEvent
    | rewrite (count_callEvent isDispatch) by done
    | rewrite (count_callEvent isLog) by done
    | rewrite (count_callEvent isNewRequest) by done
    | rewrite (count_callEvent isBodyRead) by done
    | rewrite (count_callEvent isSleep) by done
    | rewrite (count_callEvent isMarshal) by done
    | rewrite (count_callEvent isUnmarshal) by done ];
  cbn; rewrite ?app_nil_r.

(** C3: with the request built, [do] runs the chain of the client's
    default options followed by the options of the call, as section 4.1
    words it: the calls it makes are those of [chain], so each option is
    handed the context its predecessor returned and the options called are
    an initial part of the concatenation; when the chain ends in an error,
    [do] returns the empty string and that error and dispatches nothing;
    when it ends well, the request it leaves is dispatched, once. *)
Theorem do_option_chain ctx method url body reqOpts st req0 result err st' t :
  http_NewRequest method url body = inr req0 →
  do ctx method url body reqOpts st = (result, err, st', t) →
  ∃ calls out,
    chain (cl_reqOpts (st_client st) ++ reqOpts) ctx req0 calls out ∧
    optionCalls t = calls ∧
    map (λ c, c.1.1) calls `prefix_of` (cl_reqOpts (st_client st) ++ reqOpts) ∧
    match out with
    | inl e => result = "" ∧ err = Some e ∧ count isDispatch t = 0%nat
    | inr (_, req) =>
        count isDispatch t = 1%nat ∧ ∃ r, EvDispatch req r ∈ t
    end.
Proof.
  intros Hnew Hdo. apply do_inv in Hdo.
  inversion Hdo as [e He | r0 calls e Hr Hch | r0 calls c' req net e r Hr Hch Hnet
                   | r0 calls c' req net resp tr Hr Hch Hnet Hlog Hd Hn Ho Hsl Hb];
    subst; try congruence;
    assert (r0 = req0) as -> by congruence;
    exists calls; eexists; (split; [exact Hch|]);
    (split; [count_events; rewrite ?Ho, ?app_nil_r; done|]);
    (split; [by eapply chain_prefix|]).
  - repeat split; try done. by count_events.
  - split; [by count_events|].
    eexists. apply list_elem_of_further, elem_of_app. right. left.
  - split; [count_events; by rewrite Hd|].
    eexists. apply list_elem_of_further, elem_of_app. right. left.
Qed.

(** ** The response *)

(** A response that was received decides what [do] returns. *)
Lemma do_received ctx method url body reqOpts st out st' t req resp :
  do ctx method url body reqOpts st = (out, st', t) →
  EvDispatch req (inr resp) ∈ t →
  out = outcome resp ∧
  (badStatus resp = true → count isBodyRead t = 0%nat).
Proof.
  intros Hdo Hin. apply do_inv in Hdo.
  inversion Hdo as [e He | r0 calls e Hr Hch | r0 calls c' rq net e r Hr Hch Hnet
                   | r0 calls c' rq net rsp tr Hr Hch Hnet Hlog Hd Hn Ho Hsl Hb];
    subst.
  - apply list_elem_of_singleton in Hin. discriminate.
  - apply elem_of_cons in Hin as [Hin|Hin]; [discriminate|].
    by apply callEvent_isOption in Hin.
  - apply elem_of_cons in Hin as [Hin|Hin]; [discriminate|].
    apply elem_of_app in Hin as [Hin|Hin].
    { by apply callEvent_isOption in Hin. }
    apply elem_of_cons in Hin as [Hin|Hin]; [discriminate|].
    apply list_elem_of_singleton in Hin. discriminate.
  - apply elem_of_cons in Hin as [Hin|Hin]; [discriminate|].
    apply elem_of_app in Hin as [Hin|Hin].
    { by apply callEvent_isOption in Hin. }
    apply elem_of_cons in Hin as [Hin|Hin].
    + simplify_eq. split; [done|]. intros Hbad. count_events.
      by rewrite (Hb Hbad).
    + apply elem_of_app in Hin as [Hin|Hin].
      * by apply (count_zero_not_in _ _ _ Hd) in Hin.
      * apply list_elem_of_singleton in Hin. discriminate.
Qed.

Lemma badStatus_false resp :
  200 ≤ resp_StatusCode resp < 300 → badStatus resp = false.
Proof. unfold badStatus. lia. Qed.

Lemma badStatus_true resp :
  resp_StatusCode resp < 200 ∨ 300 ≤ resp_StatusCode resp → badStatus resp = true.
Proof. unfold badStatus. lia. Qed.

(** C1, amended: for a response with status code [s] that the pipeline
    received: if [200 <= s < 300], [do] goes on to the body and returns the
    decoded text with a nil error when creating the gzip reader and reading
    succeed, and the empty string with the error of that step when one of
    them fails; if [s < 200] or [s >= 300], [do] returns the empty string
    and the [HTTPError] of [s] and of the status text, and neither creates
    a gzip reader nor reads the body. *)
Theorem do_status_check ctx method url body reqOpts st result err st' t req resp :
  do ctx method url body reqOpts st = (result, err, st', t) →
  EvDispatch req (inr resp) ∈ t →
  (200 ≤ resp_StatusCode resp < 300 →
     match decode resp with
     | inr text => result = text ∧ err = None
     | inl e => result = "" ∧ err = Some e
     end) ∧
  (resp_StatusCode resp < 200 ∨ 300 ≤ resp_StatusCode resp →
     result = "" ∧
     err = Some (ErrHTTP (mkHTTPError (resp_StatusCode resp) (resp_Status resp))) ∧
     count isBodyRead t = 0%nat).
Proof.
  intros Hdo Hin. destruct (do_received _ _ _ _ _ _ _ _ _ _ _ Hdo Hin) as [Hout Hread].
  unfold outcome in Hout. split.
  - intros Hs. rewrite (badStatus_false _ Hs) in Hout.
    destruct (decode resp); by simplify_eq.
  - intros Hs. rewrite (badStatus_true _ Hs) in Hout, Hread.
    simplify_eq. auto.
Qed.


(** ** Log records *)

(** C6, amended: an invocation of [do] writes exactly one log record when
    the request is built and the option chain ends well, whatever happens
    afterwards; it writes none when [http.NewRequest] fails or an option
    returns an error.  It never writes more than one. *)
Theorem do_log_records ctx method url body reqOpts st result err st' t :
  do ctx method url body reqOpts st = (result, err, st', t) →
  (count isLog t ≤ 1)%nat ∧
  (∀ e, http_NewRequest method url body = inl e → count isLog t = 0%nat) ∧
  (∀ req0 calls e,
     http_NewRequest method url body = inr req0 →
     chain (cl_reqOpts (st_client st) ++ reqOpts) ctx req0 calls (inl e) →
     count isLog t = 0%nat) ∧
  (∀ req0 calls ctx' req,
     http_NewRequest method url body = inr req0 →
     chain (cl_reqOpts (st_client st) ++ reqOpts) ctx req0 calls (inr (ctx', req)) →
     count isLog t = 1%nat).
Proof.
  intros Hdo. apply do_inv in Hdo.
  inversion Hdo as [e He | r0 calls e Hr Hch | r0 calls c' rq net e r Hr Hch Hnet
                   | r0 calls c' rq net rsp tr Hr Hch Hnet Hlog Hd Hn Ho Hsl Hb];
    subst.
  - assert (count isLog [EvNewRequest method url body] = 0%nat) as Hc by done.
    rewrite Hc. repeat split; try done; try lia; congruence.
  - assert (count isLog (EvNewRequest method url body :: map callEvent calls) = 0%nat)
      as Hc by by count_events.
    rewrite Hc. repeat split; try done; try lia.
    intros req0 calls' ctx' req Hnew Hch'. assert (r0 = req0) as -> by congruence.
    by destruct (chain_functional _ _ _ _ _ _ _ Hch Hch').
  - match goal with |- context [count isLog ?l] =>
      assert (count isLog l = 1%nat) as Hc by by count_events end.
    rewrite Hc. repeat split; try done; try congruence.
    intros req0 calls' e' Hnew Hch'. assert (r0 = req0) as -> by congruence.
    by destruct (chain_functional _ _ _ _ _ _ _ Hch Hch').
  - match goal with |- context [count isLog ?l] =>
      assert (count isLog l = 1%nat) as Hc by (count_events; by rewrite Hlog) end.
    rewrite Hc. repeat split; try done; try congruence.
    intros req0 calls' e' Hnew Hch'. assert (r0 = req0) as -> by congruence.
    by destruct (chain_functional _ _ _ _ _ _ _ Hch Hch').
Qed.

(** ** The retry loop *)

(** Every invocation of [do] calls [http.NewRequest] once, first of all,
    and never sleeps: the calls of [http.NewRequest] count the
    invocations. *)
Lemma do_one_NewRequest ctx method url body reqOpts st :
  count isNewRequest (do ctx method url body reqOpts st).2 = 1%nat ∧
  count isSleep (do ctx method url body reqOpts st).2 = 0%nat.
Proof.
  destruct (do_cases ctx method url body reqOpts st) as (out & st' & t & -> & Hcase).
  cbn [snd].
  inversion Hcase as [e He | r0 calls e Hr Hch | r0 calls c' rq net e r Hr Hch Hnet
                     | r0 calls c' rq net rsp tr Hr Hch Hnet Hlog Hd Hn Ho Hsl Hb];
    subst; split; count_events; rewrite ?Hn, ?Hsl; done.
Qed.

(** A failing [do] returns the empty string. *)
Lemma do_error_result ctx method url body reqOpts st result e st' t :
  do ctx method url body reqOpts st = (result, Some e, st', t) → result = "".
Proof.
  intros Hdo. apply do_inv in Hdo.
  inversion Hdo as [e' He | r0 calls e' Hr Hch | r0 calls c' rq net e' r Hr Hch Hnet
                   | r0 calls c' rq net rsp tr Hr Hch Hnet Hlog Hd Hn Ho Hsl Hb];
    subst; try done.
  unfold outcome in *. destruct (badStatus rsp); [by simplify_eq|].
  destruct (decode rsp); by simplify_eq.
Qed.

Lemma attempt_run ctx method url body reqOpts st :
  attempt ctx method url body reqOpts st =
  let '(out, st1, t) := do ctx method url body reqOpts st in
  (out.2, mkState (st_client st1) (st_net st1) out, t).
Proof.
  unfold attempt. rewrite bind_run.
  destruct (do ctx method url body reqOpts st) as [[out st1] t].
  rewrite bind_run. cbn. destruct out as [result [e|]]; cbn; by rewrite app_nil_r.
Qed.


Lemma SetRetry_run backoff st :
  SetRetry backoff st =
  (tt,
   mkState (mkClient (cl_Timeout (st_client st))
                     (Some (retrier_New backoff DefaultRetryClassifier))
                     (cl_reqOpts (st_client st)) (cl_debugTraffic (st_client st)))
           (st_net st) (st_frame st),
   []).
Proof. reflexivity. Qed.


(** ** The wrappers *)

Lemma Run_loop_count_zero p classify remaining (work : M (option error)) :
  (∀ d, p (EvSleep d) = false) →
  (∀ st, count p (work st).2 = 0%nat) →
  ∀ st, count p (Run_loop classify remaining work st).2 = 0%nat.
Proof.
  intros Hsleep Hwork. induction remaining as [|d remaining IH]; intros st;
    cbn [Run_loop]; rewrite bind_run; specialize (Hwork st);
    destruct (work st) as [[ret st1] t]; cbn [snd] in Hwork.
  - destruct (classify ret); cbn; by rewrite count_app, Hwork.
  - destruct (classify ret); cbn; try by rewrite count_app, Hwork.
    rewrite bind_run. cbn. specialize (IH st1).
    destruct (Run_loop classify remaining work st1) as [[r st2] t2].
    cbn [snd] in IH. cbn. by rewrite count_app, count_cons, Hsleep, Hwork, IH.
Qed.

Lemma do_count_zero p ctx method url body reqOpts st :
  (∀ e, (isMarshal e || isUnmarshal e) = false → p e = false) →
  count p (do ctx method url body reqOpts st).2 = 0%nat.
Proof.
  intros Hp.
  destruct (do_cases ctx method url body reqOpts st) as (out & st' & t & -> & Hcase).
  cbn [snd].
  assert (∀ t : list Event,
            count isMarshal t = 0%nat → count isUnmarshal t = 0%nat →
            count p t = 0%nat) as Hsub.
  { clear -Hp. induction t as [|e t IH]; [done|].
    rewrite !count_cons. intros Hm Hu.
    destruct (isMarshal e) eqn:Hme; [done|].
    destruct (isUnmarshal e) eqn:Hue; [done|].
    rewrite Hp by (by rewrite Hme, Hue). cbn. apply IH; [exact Hm | exact Hu]. }
  apply Hsub;
    inversion Hcase as [e He | r0 calls e Hr Hch | r0 calls c' rq net e r Hr Hch Hnet
                       | r0 calls c' rq net rsp tr Hr Hch Hnet Hlog Hd Hn Ho Hsl Hb Hm Hu];
    subst; count_events; rewrite ?Hm, ?Hu; done.
Qed.

(** The plain-text call never touches a codec. *)
Lemma Do_no_codec ctx method url body reqOpts st :
  count isMarshal (Do ctx method url body reqOpts st).2 = 0%nat ∧
  count isUnmarshal (Do ctx method url body reqOpts st).2 = 0%nat.
Proof.
  assert (∀ p, (∀ e, (isMarshal e || isUnmarshal e) = false → p e = false) →
               (∀ d, p (EvSleep d) = false) →
               count p (Do ctx method url body reqOpts st).2 = 0%nat) as H.
  { intros p Hp Hsl. unfold Do. rewrite bind_run. cbn.
    destruct (cl_retrier (st_client st)) as [r|].
    - rewrite bind_run. cbn. rewrite bind_run. unfold Retrier_Run.
      match goal with
      | |- context [Run_loop ?c ?b ?w ?s] =>
          pose proof (Run_loop_count_zero p c b w Hsl) as Hrun;
          specialize (Hrun (λ s', ltac:(rewrite attempt_run;
            pose proof (do_count_zero p ctx method url body reqOpts s' Hp) as Hd;
            destruct (do ctx method url body reqOpts s') as [[o s1] t1];
            exact Hd)) s);
          destruct (Run_loop c b w s) as [[e1 s1] t1]
      end.
      cbn [snd] in Hrun. rewrite bind_run. cbn. by rewrite ?app_nil_r.
    - pose proof (do_count_zero p ctx method url body reqOpts st Hp) as Hd.
      destruct (do ctx method url body reqOpts st) as [[o s1] t1].
      cbn. by rewrite ?app_nil_r. }
  split; apply H; try done; intros e; destruct e; cbn; done.
Qed.

Lemma JSONClient_unmarshal_run result resultStr st :
  ∃ t, JSONClient_unmarshal result resultStr st =
         (delivered json_Unmarshal result (resultStr, None), st, t) ∧
       count isDispatch t = 0%nat ∧ count isNewRequest t = 0%nat ∧
       count isMarshal t = 0%nat ∧
       count isUnmarshal t = (if unmarshals result resultStr then 1 else 0)%nat.
Proof.
  unfold JSONClient_unmarshal, delivered, unmarshals.
  destruct result as [dest|]; [|by eexists].
  destruct (String.eqb resultStr ""); cbn; [by eexists|].
  rewrite bind_run. cbn.
  destruct (json_Unmarshal resultStr dest) as [dest' [e|]]; cbn; by eexists.
Qed.

Lemma XMLClient_unmarshal_run result resultStr st :
  ∃ t, XMLClient_unmarshal result resultStr st =
         (delivered xml_Unmarshal result (resultStr, None), st, t) ∧
       count isDispatch t = 0%nat ∧ count isNewRequest t = 0%nat ∧
       count isMarshal t = 0%nat ∧
       count isUnmarshal t = (if unmarshals result resultStr then 1 else 0)%nat.
Proof.
  unfold XMLClient_unmarshal, delivered, unmarshals.
  destruct result as [dest|]; [|by eexists].
  destruct (String.eqb resultStr ""); cbn; [by eexists|].
  rewrite bind_run. cbn.
  destruct (xml_Unmarshal resultStr dest) as [dest' [e|]]; cbn; by eexists.
Qed.

(** After the encoding of the body, which wrote [t1]: run the plain-text
    call, then the unmarshalling stage. *)
Ltac wrapper_tail unmarshal_run result t1 :=
  repeat (first [rewrite bind_run | rewrite ret_run];
          cbn -[Do JSONClient_unmarshal XMLClient_unmarshal]);
  match goal with
  | |- context [Do ?c ?m ?u ?b ?o ?s] =>
      let rs := fresh "resultStr" in
      let st2 := fresh "st2" in
      let t2 := fresh "t2" in
      let err := fresh "err" in
      let t3 := fresh "t3" in
      destruct (Do c m u b o s) as [[[rs [err|]] st2] t2];
      [ exists t1, []; cbn; rewrite ?app_nil_r; done
      | destruct (unmarshal_run result rs st2) as (t3 & -> & ? & ? & ? & ?);
        exists t1, t3; cbn; done ]
  end.

Lemma JSONClient_Do_run ctx method url body result reqOpts st :
  match JSONClient_bodyData body with
  | inl e =>
      ∃ t, JSONClient_Do ctx method url body result reqOpts st =
             (result, Some e, st, t) ∧
           count isMarshal t = 1%nat ∧
           count isNewRequest t = 0%nat ∧ count isDispatch t = 0%nat ∧
           count isUnmarshal t = 0%nat
  | inr bodyData =>
      let run := Do ctx method url bodyData (SetTypeJSON :: reqOpts) st in
      ∃ t1 t3,
        JSONClient_Do ctx method url body result reqOpts st =
          (delivered json_Unmarshal result run.1.1, run.1.2, t1 ++ run.2 ++ t3) ∧
        count isMarshal t1 = match passesThrough true body with
                             | Some _ => 0%nat
                             | None => 1%nat
                             end ∧
        (count isNewRequest t1 = 0%nat ∧ count isDispatch t1 = 0%nat ∧
         count isUnmarshal t1 = 0%nat) ∧
        count isDispatch t3 = 0%nat ∧ count isNewRequest t3 = 0%nat ∧
        count isMarshal t3 = 0%nat ∧
        count isUnmarshal t3 = (if reachesUnmarshal result run.1.1 then 1 else 0)%nat
  end.
Proof.
  unfold JSONClient_Do, JSONClient_bodyData.
  destruct body as [|s|b|b|v];
    try (cbn zeta; wrapper_tail JSONClient_unmarshal_run result (@nil Event)).
  rewrite bind_run. cbn -[Do JSONClient_unmarshal].
  rewrite bind_run. cbn -[Do JSONClient_unmarshal].
  destruct (json_Marshal (IOther v)) as [e|bodyData].
  - cbn. eexists. split; [reflexivity|]. done.
  - cbn zeta.
    wrapper_tail JSONClient_unmarshal_run result [EvMarshal JSON (IOther v)].
Qed.

Lemma XMLClient_Do_run ctx method url body result reqOpts st :
  match XMLClient_bodyData body with
  | inl e =>
      ∃ t, XMLClient_Do ctx method url body result reqOpts st =
             (result, Some e, st, t) ∧
           count isMarshal t = 1%nat ∧
           count isNewRequest t = 0%nat ∧ count isDispatch t = 0%nat ∧
           count isUnmarshal t = 0%nat
  | inr bodyData =>
      let run := Do ctx method url bodyData (SetTypeXML :: reqOpts) st in
      ∃ t1 t3,
        XMLClient_Do ctx method url body result reqOpts st =
          (delivered xml_Unmarshal result run.1.1, run.1.2, t1 ++ run.2 ++ t3) ∧
        count isMarshal t1 = match passesThrough false body with
                             | Some _ => 0%nat
                             | None => 1%nat
                             end ∧
        (count isNewRequest t1 = 0%nat ∧ count isDispatch t1 = 0%nat ∧
         count isUnmarshal t1 = 0%nat) ∧
        count isDispatch t3 = 0%nat ∧ count isNewRequest t3 = 0%nat ∧
        count isMarshal t3 = 0%nat ∧
        count isUnmarshal t3 = (if reachesUnmarshal result run.1.1 then 1 else 0)%nat
  end.
Proof.
  unfold XMLClient_Do, XMLClient_bodyData.
  destruct body as [|s|b|b|v];
    try (cbn zeta; wrapper_tail XMLClient_unmarshal_run result (@nil Event)).
  - rewrite bind_run. cbn -[Do XMLClient_unmarshal].
    rewrite bind_run. cbn -[Do XMLClient_unmarshal].
    destruct (xml_Marshal (IRawMessage b)) as [e|bodyData].
    + cbn. eexists. split; [reflexivity|]. done.
    + cbn zeta.
      wrapper_tail XMLClient_unmarshal_run result [EvMarshal XML (IRawMessage b)].
  - rewrite bind_run. cbn -[Do XMLClient_unmarshal].
    rewrite bind_run. cbn -[Do XMLClient_unmarshal].
    destruct (xml_Marshal (IOther v)) as [e|bodyData].
    + cbn. eexists. split; [reflexivity|]. done.
    + cbn zeta.
      wrapper_tail XMLClient_unmarshal_run result [EvMarshal XML (IOther v)].
Qed.

Lemma passesThrough_JSON body :
  match passesThrough true body with
  | Some bodyData => JSONClient_bodyData body = inr bodyData
  | None => JSONClient_bodyData body = json_Marshal body ∧ ∃ v, body = IOther v
  end.
Proof. destruct body; cbn; eauto. Qed.

Lemma passesThrough_XML body :
  match passesThrough false body with
  | Some bodyData => XMLClient_bodyData body = inr bodyData
  | None => XMLClient_bodyData body = xml_Marshal body ∧
            ((∃ v, body = IOther v) ∨ (∃ b, body = IRawMessage b))
  end.
Proof. destruct body; cbn; eauto. Qed.

(** What [delivered] and [reachesUnmarshal] say, case by case. *)
Lemma delivered_cases unmarshal result resultStr err :
  (∀ e, err = Some e →
        delivered unmarshal result (resultStr, err) = (result, Some e) ∧
        reachesUnmarshal result (resultStr, err) = false) ∧
  (∀ dest, err = None → result = Some dest → resultStr ≠ "" →
        delivered unmarshal result (resultStr, err) =
          (Some (unmarshal resultStr dest).1, (unmarshal resultStr dest).2) ∧
        reachesUnmarshal result (resultStr, err) = true) ∧
  (err = None → result = None ∨ resultStr = "" →
        delivered unmarshal result (resultStr, err) = (result, None) ∧
        reachesUnmarshal result (resultStr, err) = false).
Proof.
  unfold delivered, reachesUnmarshal, unmarshals. cbn. split; [|split].
  - by intros e ->.
  - intros dest -> -> Hne. apply String.eqb_neq in Hne. by rewrite Hne.
  - intros -> [->| ->]; [done|]. by destruct result.
Qed.

(** From the run of a wrapper to its specification. *)
Lemma WrapperSpec_intro wrapper contentType marshal unmarshal rawMessage
      (bodyData : iface Value → error + string) :
  (∀ body, match passesThrough rawMessage body with
           | Some d => bodyData body = inr d
           | None => bodyData body = marshal body
           end) →
  (∀ ctx method url body result reqOpts st,
     match bodyData body with
     | inl e =>
         ∃ t, wrapper ctx method url body result reqOpts st =
                (result, Some e, st, t) ∧
              count isMarshal t = 1%nat ∧
              count isNewRequest t = 0%nat ∧ count isDispatch t = 0%nat ∧
              count isUnmarshal t = 0%nat
     | inr d =>
         let run := Do ctx method url d (contentType :: reqOpts) st in
         ∃ t1 t3,
           wrapper ctx method url body result reqOpts st =
             (delivered unmarshal result run.1.1, run.1.2, t1 ++ run.2 ++ t3) ∧
           count isMarshal t1 = match passesThrough rawMessage body with
                                | Some _ => 0%nat
                                | None => 1%nat
                                end ∧
           (count isNewRequest t1 = 0%nat ∧ count isDispatch t1 = 0%nat ∧
            count isUnmarshal t1 = 0%nat) ∧
           count isDispatch t3 = 0%nat ∧ count isNewRequest t3 = 0%nat ∧
           count isMarshal t3 = 0%nat ∧
           count isUnmarshal t3 =
             (if reachesUnmarshal result run.1.1 then 1 else 0)%nat
     end) →
  WrapperSpec wrapper contentType marshal unmarshal rawMessage.
Proof.
  intros Hbody Hrun ctx method url body result reqOpts st.
  specialize (Hbody body). specialize (Hrun ctx method url body result reqOpts st).
  split.
  - intros e Hpass Hm. rewrite Hpass in Hbody. rewrite Hbody, Hm in Hrun.
    destruct Hrun as (t & Ht & Hcm & Hcn & Hcd & _). by exists t.
  - intros d resultStr err st2 t2 Hsend HDo.
    assert (bodyData body = inr d) as Hd.
    { destruct Hsend as [Hp|[Hp Hm]]; rewrite Hp in Hbody; congruence. }
    rewrite Hd in Hrun. cbn zeta in Hrun. rewrite HDo in Hrun. cbn [fst snd] in Hrun.
    destruct Hrun as (t1 & t3 & Hw & Hm1 & (Hn1 & Hd1 & Hu1) & Hd3 & Hn3 & Hm3 & Hu3).
    destruct (Do_no_codec ctx method url d (contentType :: reqOpts) st) as [Hm2 Hu2].
    rewrite HDo in Hm2, Hu2. cbn [snd] in Hm2, Hu2.
    destruct (delivered_cases unmarshal result resultStr err) as (Herr & Hok & Hnone).
    exists (delivered unmarshal result (resultStr, err)).1,
           (delivered unmarshal result (resultStr, err)).2, (t1 ++ t2 ++ t3).
    split; [by destruct (delivered unmarshal result (resultStr, err))|].
    rewrite !count_app, Hm1, Hm2, Hm3, Hn1, Hn3, Hd1, Hd3, Hu1, Hu2, Hu3.
    split; [by destruct (passesThrough rawMessage body)|].
    split; [lia|]. split; [lia|]. split; [|split].
    + intros e He. destruct (Herr e He) as [-> ->]. done.
    + intros dest He Hr Hne. destruct (Hok dest He Hr Hne) as [-> ->]. done.
    + intros He Hr. destruct (Hnone He Hr) as [-> ->]. done.
Qed.

(** C7, amended: [JSONClient.Do] and [XMLClient.Do] are content wrappers
    with the content-type options [application/json; charset=UTF-8] and
    [application/xml; charset=UTF-8] ahead of the caller's options; the
    JSON wrapper hands a [json.RawMessage] body on as it is, like a string
    and a [[]byte], while the XML wrapper marshals it like any other
    value. *)
Theorem wrappers_Do :
  WrapperSpec JSONClient_Do SetTypeJSON json_Marshal json_Unmarshal true ∧
  WrapperSpec XMLClient_Do SetTypeXML xml_Marshal xml_Unmarshal false ∧
  SetTypeJSON = SetHeader "Content-Type" "application/json; charset=UTF-8" ∧
  SetTypeXML = SetHeader "Content-Type" "application/xml; charset=UTF-8".
Proof.
  split; [|split; [|done]].
  - apply (WrapperSpec_intro _ _ _ _ _ JSONClient_bodyData).
    + intros body. pose proof (passesThrough_JSON body) as H.
      destruct (passesThrough true body); [done | by destruct H].
    + apply JSONClient_Do_run.
  - apply (WrapperSpec_intro _ _ _ _ _ XMLClient_bodyData).
    + intros body. pose proof (passesThrough_XML body) as H.
      destruct (passesThrough false body); [done | by destruct H].
    + apply XMLClient_Do_run.
Qed.

(** C10: when the plain-text call under [JSONClient.Do] or [XMLClient.Do]
    returns an error, or an empty response, no unmarshal is invoked and
    the destination keeps the value it had; the wrapper returns the error
    of the call. *)
Theorem wrappers_keep_destination ctx method url body result reqOpts st :
  (∀ bodyData resultStr err st2 t2 dest' err' st' t,
     JSONClient_bodyData body = inr bodyData →
     Do ctx method url bodyData (SetTypeJSON :: reqOpts) st = (resultStr, err, st2, t2) →
     err ≠ None ∨ resultStr = "" →
     JSONClient_Do ctx method url body result reqOpts st = (dest', err', st', t) →
     dest' = result ∧ err' = err ∧ count isUnmarshal t = 0%nat) ∧
  (∀ bodyData resultStr err st2 t2 dest' err' st' t,
     XMLClient_bodyData body = inr bodyData →
     Do ctx method url bodyData (SetTypeXML :: reqOpts) st = (resultStr, err, st2, t2) →
     err ≠ None ∨ resultStr = "" →
     XMLClient_Do ctx method url body result reqOpts st = (dest', err', st', t) →
     dest' = result ∧ err' = err ∧ count isUnmarshal t = 0%nat).
Proof.
  assert (∀ unmarshal resultStr err,
            err ≠ None ∨ resultStr = "" →
            delivered unmarshal result (resultStr, err) = (result, err) ∧
            reachesUnmarshal result (resultStr, err) = false) as Hkeep.
  { intros unmarshal resultStr err Hcase.
    destruct (delivered_cases unmarshal result resultStr err) as (Herr & _ & Hnone).
    destruct err as [e|]; [by apply Herr|].
    destruct Hcase as [?| ->]; [done|]. apply Hnone; auto. }
  split; intros bodyData resultStr err st2 t2 dest' err' st' t Hbody HDo Hcase Hw.
  - pose proof (JSONClient_Do_run ctx method url body result reqOpts st) as Hrun.
    rewrite Hbody in Hrun. cbn zeta in Hrun. rewrite HDo in Hrun. cbn [fst snd] in Hrun.
    destruct Hrun as (t1 & t3 & Hw' & Hm1 & (Hn1 & Hd1 & Hu1) & Hd3 & Hn3 & Hm3 & Hu3).
    destruct (Do_no_codec ctx method url bodyData (SetTypeJSON :: reqOpts) st) as [_ Hu2].
    rewrite HDo in Hu2. cbn [snd] in Hu2.
    destruct (Hkeep json_Unmarshal resultStr err Hcase) as [Hdel Hreach].
    rewrite Hdel, Hreach in *. rewrite Hw in Hw'. simplify_eq.
    by rewrite !count_app, Hu1, Hu2, Hu3.
  - pose proof (XMLClient_Do_run ctx method url body result reqOpts st) as Hrun.
    rewrite Hbody in Hrun. cbn zeta in Hrun. rewrite HDo in Hrun. cbn [fst snd] in Hrun.
    destruct Hrun as (t1 & t3 & Hw' & Hm1 & (Hn1 & Hd1 & Hu1) & Hd3 & Hn3 & Hm3 & Hu3).
    destruct (Do_no_codec ctx method url bodyData (SetTypeXML :: reqOpts) st) as [_ Hu2].
    rewrite HDo in Hu2. cbn [snd] in Hu2.
    destruct (Hkeep xml_Unmarshal resultStr err Hcase) as [Hdel Hreach].
    rewrite Hdel, Hreach in *. rewrite Hw in Hw'. simplify_eq.
    by rewrite !count_app, Hu1, Hu2, Hu3.
Qed.

(** ** Query values *)

Lemma Values_Add_lookup (v : Values) key value k :
  Values_Add v key value !!! k =
  if decide (key = k) then v !!! k ++ [value] else v !!! k.
Proof.
  unfold Values_Add. rewrite lookup_total_insert.
  destruct (decide (key = k)) as [->|]; done.
Qed.



(** ** Escaping and parsing *)

#[local] Arguments String.append : simpl nomatch.

Lemma append_assoc (a b c : string) : (a +:+ b) +:+ c = a +:+ (b +:+ c).
Proof. induction a as [|x a IH]; simpl; [done | by f_equal]. Qed.

Lemma append_nil_r (a : string) : a +:+ "" = a.
Proof. induction a as [|x a IH]; simpl; [done | by f_equal]. Qed.

Lemma length_append (a b : string) :
  String.length (a +:+ b) = (String.length a + String.length b)%nat.
Proof. induction a as [|x a IH]; simpl; [done | by f_equal]. Qed.

Lemma contains_append c (a b : string) :
  contains c (a +:+ b) = contains c a || contains c b.
Proof.
  unfold contains. induction a as [|x a IH]; simpl; [done|].
  by rewrite IH, orb_assoc.
Qed.

Lemma cut_found sep (a b : string) :
  contains sep a = false → cut sep (a +:+ String sep b) = (a, b).
Proof.
  unfold contains. induction a as [|x a IH]; simpl.
  - by rewrite Ascii.eqb_refl.
  - intros H. apply orb_false_iff in H as [Hx Ha].
    rewrite Ascii.eqb_sym in Hx. rewrite Hx, (IH Ha). done.
Qed.

Lemma cut_not_found sep (a : string) :
  contains sep a = false → cut sep a = (a, "").
Proof.
  unfold contains. induction a as [|x a IH]; simpl; [done|].
  intros H. apply orb_false_iff in H as [Hx Ha].
  rewrite Ascii.eqb_sym in Hx. rewrite Hx, (IH Ha). done.
Qed.

(** An escaped byte holds none of the separators of a query, and unescapes
    to the byte. *)
Lemma escapeByte_clean (c : ascii) :
  contains "&" (escapeByte c) = false ∧
  contains "=" (escapeByte c) = false ∧
  contains ";" (escapeByte c) = false.
Proof.
  destruct c as [[] [] [] [] [] [] [] []]; vm_compute; done.
Qed.

Lemma QueryUnescape_escapeByte (c : ascii) (rest : string) :
  QueryUnescape (escapeByte c +:+ rest) = String c <$> QueryUnescape rest.
Proof.
  destruct c as [[] [] [] [] [] [] [] []]; reflexivity.
Qed.

Lemma QueryEscape_clean (s : string) :
  contains "&" (QueryEscape s) = false ∧
  contains "=" (QueryEscape s) = false ∧
  contains ";" (QueryEscape s) = false.
Proof.
  induction s as [|c s (IH1 & IH2 & IH3)]; [done|].
  simpl QueryEscape. rewrite !contains_append, IH1, IH2, IH3.
  destruct (escapeByte_clean c) as (-> & -> & ->). done.
Qed.

(** Round trip of the escaping. *)
Lemma QueryUnescape_QueryEscape (s : string) :
  QueryUnescape (QueryEscape s) = Some s.
Proof.
  induction s as [|c s IH]; [done|].
  simpl QueryEscape. by rewrite QueryUnescape_escapeByte, IH.
Qed.

Lemma eqb_empty_append (a : string) c (b : string) :
  String.eqb (a +:+ String c b) "" = false.
Proof. by destruct a. Qed.

Lemma encPair_nonempty p : String.eqb (encPair p) "" = false.
Proof. apply eqb_empty_append. Qed.

Lemma glue_empty_l b : glue "" b = b.
Proof. done. Qed.

Lemma glue_empty_r a : glue a "" = a.
Proof. unfold glue. by destruct (String.eqb a "") eqn:H; [apply String.eqb_eq in H|]. Qed.

Lemma append_nonempty (a b : string) :
  String.eqb a "" = false → String.eqb (a +:+ b) "" = false.
Proof. by destruct a. Qed.

Lemma glue_both a b :
  String.eqb a "" = false → String.eqb b "" = false →
  glue a b = a +:+ "&" +:+ b.
Proof. intros Ha Hb. unfold glue. by rewrite Ha, Hb. Qed.

Lemma glue_nonempty a b :
  String.eqb a "" = false → String.eqb (glue a b) "" = false.
Proof.
  intros Ha. unfold glue. rewrite Ha.
  destruct (String.eqb b ""); [done | by apply append_nonempty].
Qed.

Lemma glue_assoc a b c : glue (glue a b) c = glue a (glue b c).
Proof.
  destruct (String.eqb a "") eqn:Ha.
  { apply String.eqb_eq in Ha as ->. by rewrite !glue_empty_l. }
  destruct (String.eqb b "") eqn:Hb.
  { apply String.eqb_eq in Hb as ->. by rewrite glue_empty_r, glue_empty_l. }
  destruct (String.eqb c "") eqn:Hc.
  { apply String.eqb_eq in Hc as ->. by rewrite !glue_empty_r. }
  rewrite (glue_both (glue a b) c), (glue_both a b), (glue_both a (glue b c)),
    (glue_both b c) by auto using glue_nonempty.
  by rewrite !append_assoc.
Qed.

Lemma joinPairs_app ps1 ps2 :
  joinPairs (ps1 ++ ps2) = glue (joinPairs ps1) (joinPairs ps2).
Proof.
  induction ps1 as [|p ps1 IH]; [done|].
  cbn. fold (joinPairs (ps1 ++ ps2)) (joinPairs ps1). by rewrite IH, glue_assoc.
Qed.

(** The two loops of [Values.Encode] write the pairs, joined. *)
Lemma encodeKey_glue (v : Values) buf k :
  encodeKey v buf k = glue buf (joinPairs (map (pair k) (v !!! k))).
Proof.
  unfold encodeKey. generalize (v !!! k). intros vs. revert buf.
  induction vs as [|x vs IH]; intros buf; cbn [foldl map].
  - by rewrite glue_empty_r.
  - rewrite IH. change (joinPairs ((k, x) :: map (pair k) vs))
      with (glue (encPair (k, x)) (joinPairs (map (pair k) vs))).
    rewrite <- glue_assoc. f_equal.
    destruct (String.eqb buf "") eqn:Hbuf.
    + apply String.eqb_eq in Hbuf as ->. done.
    + rewrite (glue_both buf) by auto using encPair_nonempty.
      unfold encPair. cbn [fst snd]. by rewrite append_assoc.
Qed.

Lemma Values_Encode_joinPairs (v : Values) :
  Values_Encode v = joinPairs (pairsOf v).
Proof.
  unfold Values_Encode, pairsOf.
  assert (∀ keys buf,
            foldl (encodeKey v) buf keys =
            glue buf (joinPairs (flat_map (λ k, map (pair k) (v !!! k)) keys)))
    as H.
  { induction keys as [|k keys IH]; intros buf; cbn [foldl flat_map].
    - by rewrite glue_empty_r.
    - by rewrite IH, encodeKey_glue, joinPairs_app, glue_assoc. }
  by rewrite H, glue_empty_l.
Qed.

Lemma encPair_clean p :
  contains "&" (encPair p) = false ∧ contains ";" (encPair p) = false.
Proof.
  unfold encPair. rewrite !contains_append.
  destruct (QueryEscape_clean p.1) as (-> & _ & ->).
  destruct (QueryEscape_clean p.2) as (-> & _ & ->). done.
Qed.

(** One round of [parseQuery] on an encoded pair adds the pair. *)
Lemma parsePair_encPair (m : Values) p :
  parsePair m (encPair p) = Values_Add m p.1 p.2.
Proof.
  unfold parsePair. destruct (encPair_clean p) as [_ ->].
  rewrite encPair_nonempty. unfold encPair.
  change (QueryEscape p.1 +:+ "=" +:+ QueryEscape p.2)
    with (QueryEscape p.1 +:+ String "=" (QueryEscape p.2)).
  rewrite cut_found by apply QueryEscape_clean.
  by rewrite !QueryUnescape_QueryEscape.
Qed.

Lemma joinPairs_cons p ps :
  joinPairs (p :: ps) =
  match ps with
  | [] => encPair p
  | _ => encPair p +:+ String "&" (joinPairs ps)
  end.
Proof.
  change (joinPairs (p :: ps)) with (glue (encPair p) (joinPairs ps)).
  destruct ps as [|p' ps]; [by rewrite glue_empty_r|].
  rewrite glue_both; [done | apply encPair_nonempty |].
  change (joinPairs (p' :: ps)) with (glue (encPair p') (joinPairs ps)).
  apply glue_nonempty, encPair_nonempty.
Qed.

Lemma joinPairs_clean_empty ps :
  ps ≠ [] → String.eqb (joinPairs ps) "" = false.
Proof.
  destruct ps as [|p ps]; [done|]. intros _.
  change (joinPairs (p :: ps)) with (glue (encPair p) (joinPairs ps)).
  apply glue_nonempty, encPair_nonempty.
Qed.

(** The loop of [parseQuery] on joined pairs adds them in order. *)
Lemma parseQuery_loop_joinPairs ps : ∀ fuel (m : Values),
  (String.length (joinPairs ps) ≤ fuel)%nat →
  parseQuery_loop fuel m (joinPairs ps) =
  foldl (λ m p, Values_Add m p.1 p.2) m ps.
Proof.
  induction ps as [|p ps IH]; intros fuel m Hfuel.
  - by destruct fuel.
  - rewrite joinPairs_cons in *. destruct fuel as [|fuel].
    { destruct ps; [|rewrite length_append in Hfuel];
        pose proof (encPair_nonempty p) as Hne;
        destruct (encPair p); cbn in *; try done; lia. }
    cbn [parseQuery_loop foldl]. destruct ps as [|p' ps].
    + rewrite encPair_nonempty, cut_not_found by apply encPair_clean.
      rewrite parsePair_encPair. by destruct fuel.
    + rewrite append_nonempty by apply encPair_nonempty.
      rewrite cut_found by apply encPair_clean.
      rewrite parsePair_encPair. apply IH.
      rewrite length_append in Hfuel. cbn [String.length] in Hfuel. lia.
Qed.

Lemma parseQuery_Encode (v : Values) :
  parseQuery ∅ (Values_Encode v) =
  foldl (λ m p, Values_Add m p.1 p.2) ∅ (pairsOf v).
Proof.
  unfold parseQuery. rewrite Values_Encode_joinPairs.
  by apply parseQuery_loop_joinPairs.
Qed.

Lemma addPairs_lookup ps : ∀ (m : Values) k,
  foldl (λ m p, Values_Add m p.1 p.2) m ps !!! k =
  m !!! k ++ (filter (λ p, p.1 = k) ps).*2.
Proof.
  induction ps as [|[k' x] ps IH]; intros m k; cbn [foldl].
  - by rewrite app_nil_r.
  - rewrite IH, Values_Add_lookup. cbn [fst snd].
    destruct (decide (k' = k)) as [->|Hne].
    + rewrite filter_cons_True by done. cbn. by rewrite <- app_assoc.
    + by rewrite filter_cons_False by done.
Qed.

Lemma pairsOf_filter (v : Values) keys k :
  NoDup keys →
  (filter (λ p, p.1 = k) (flat_map (λ k', map (pair k') (v !!! k')) keys)).*2 =
  if decide (k ∈ keys) then v !!! k else [].
Proof.
  assert (∀ k' (vs : list string),
            filter (λ p : string * string, p.1 = k) (map (pair k') vs) =
            if decide (k' = k) then map (pair k') vs else []) as Hone.
  { intros k' vs. induction vs as [|x vs IH]; cbn [map].
    - by destruct (decide (k' = k)).
    - destruct (decide (k' = k)) as [->|Hne].
      + rewrite filter_cons_True by done. by rewrite IH.
      + by rewrite filter_cons_False by done. }
  induction keys as [|k' keys IH]; intros Hnd; [done|].
  apply NoDup_cons in Hnd as [Hnotin Hnd].
  cbn [flat_map]. rewrite filter_app, fmap_app, Hone, (IH Hnd).
  destruct (decide (k' = k)) as [->|Hne].
  - rewrite (decide_True (P := k ∈ k :: keys)) by apply list_elem_of_here.
    rewrite (decide_False (P := k ∈ keys)) by done.
    rewrite app_nil_r. generalize (v !!! k). intros vs.
    induction vs as [|x vs IHv]; [done|]. cbn in *. by f_equal.
  - cbn. destruct (decide (k ∈ keys)) as [Hin|Hnin].
    + rewrite (decide_True (P := k ∈ k' :: keys)); [done|].
      by apply list_elem_of_further.
    + rewrite (decide_False (P := k ∈ k' :: keys)); [done|].
      intros [->|?]%elem_of_cons; done.
Qed.

(** Parsing an encoded query gives back the values of every key. *)
Lemma parseQuery_Encode_lookup (v : Values) k :
  parseQuery ∅ (Values_Encode v) !!! k = v !!! k.
Proof.
  rewrite parseQuery_Encode, addPairs_lookup, lookup_total_empty. cbn [app].
  unfold pairsOf. rewrite pairsOf_filter.
  - destruct (decide (k ∈ sortedKeys v)) as [Hin|Hnin]; [done|].
    unfold sortedKeys in Hnin. rewrite merge_sort_Permutation in Hnin.
    rewrite lookup_total_alt.
    destruct (v !! k) as [vs|] eqn:Hk; [|done].
    exfalso. apply Hnin. apply list_elem_of_fmap. exists (k, vs).
    split; [done|]. by apply elem_of_map_to_list.
  - unfold sortedKeys. rewrite merge_sort_Permutation.
    apply NoDup_fst_map_to_list.
Qed.


End Properties.

(** ** The default option list and its backing array *)

Section SliceProperties.
Context {A : Type} (zero : A) (growcap : nat → nat → nat).

Abbreviation append := (Slices.append zero growcap).
Abbreviation appendReqOpts := (Slices.appendReqOpts zero growcap).
Abbreviation calls := (Slices.calls zero growcap).

Lemma clip_valid (h : gmap nat (list A)) s :
  Slices.valid h s → Slices.valid h (Slices.clip s).
Proof.
  intros [Hlen Harr]. split; [done|]. cbn.
  destruct (Slices.arr s) as [a|].
  - destruct Harr as (l & Hl & Hb). exists l. split; [done | lia].
  - lia.
Qed.

Lemma clip_elems (h : gmap nat (list A)) s :
  Slices.elems h (Slices.clip s) = Slices.elems h s.
Proof. done. Qed.

(** Appending nothing returns the slice, and the heap, as they are. *)
Lemma append_nothing (h : gmap nat (list A)) s :
  Slices.valid h s → append h s [] = (h, s).
Proof.
  intros [Hlen Harr]. unfold Slices.append. cbn [length].
  rewrite Nat.add_0_r. rewrite decide_True by done.
  destruct s as [[a|] off len cap]; cbn in *; [|done].
  destruct Harr as (l & Hl & Hb).
  rewrite (lookup_total_correct _ _ _ Hl), take_drop.
  by rewrite insert_id.
Qed.

Lemma elems_length (h : gmap nat (list A)) s :
  Slices.valid h s → length (Slices.elems h s) = Slices.len s.
Proof.
  intros [Hlen Harr]. unfold Slices.elems, Slices.array.
  destruct (Slices.arr s) as [a|].
  - destruct Harr as (l & Hl & Hb). rewrite (lookup_total_correct _ _ _ Hl).
    rewrite length_take, length_drop. lia.
  - rewrite drop_nil, take_nil. cbn. lia.
Qed.

(** Appending something to a slice without spare capacity moves to an
    array that was not there before, and leaves the others alone. *)
Lemma append_full (h : gmap nat (list A)) s xs :
  Slices.valid h s → Slices.cap s = Slices.len s → xs ≠ [] →
  ∃ l c, append h s xs =
           (<[fresh (dom h) := l]> h,
            Slices.mkSlice (Some (fresh (dom h))) 0 (Slices.len s + length xs) c) ∧
         h !! fresh (dom h) = None ∧
         take (Slices.len s + length xs) l = Slices.elems h s ++ xs.
Proof.
  intros Hvalid Hcap Hxs. unfold Slices.append. rewrite Hcap.
  rewrite decide_False by (destruct xs; [done | cbn; lia]).
  do 2 eexists. split; [reflexivity|]. split.
  - apply not_elem_of_dom, is_fresh.
  - rewrite app_assoc, take_app_length'; [done|].
    by rewrite length_app, elems_length.
Qed.

(** Whatever is appended to a stored, clipped slice, the slice keeps its
    place and its elements. *)
Lemma append_frame (h : gmap nat (list A)) stored xs :
  Slices.valid h stored → Slices.cap stored = Slices.len stored →
  Slices.valid (append h stored xs).1 stored ∧
  Slices.elems (append h stored xs).1 stored = Slices.elems h stored.
Proof.
  intros Hvalid Hcap. destruct xs as [|x xs].
  { by rewrite append_nothing. }
  destruct (append_full h stored (x :: xs) Hvalid Hcap) as (l & c & -> & Hfresh & _);
    [done|].
  cbn [fst]. destruct Hvalid as [Hlen Harr]. unfold Slices.valid, Slices.elems, Slices.array.
  destruct (Slices.arr stored) as [a|]; [|done].
  destruct Harr as (la & Hla & Hb).
  assert (fresh (dom h) ≠ a) as Hne by congruence.
  rewrite lookup_total_insert_ne, lookup_insert_ne by done.
  split; [|done]. split; [done|]. by exists la.
Qed.

Lemma calls_frame perCall : ∀ (h : gmap nat (list A)) stored,
  Slices.valid h stored → Slices.cap stored = Slices.len stored →
  Slices.elems (calls h stored perCall) stored = Slices.elems h stored.
Proof.
  induction perCall as [|reqOpts perCall IH]; intros h stored Hvalid Hcap; [done|].
  cbn [Slices.calls foldl]. unfold Slices.appendReqOpts at 2.
  destruct (append_frame h stored (Slices.elems h reqOpts) Hvalid Hcap) as [Hv He].
  fold (Slices.calls zero growcap
          (append h stored (Slices.elems h reqOpts)).1 stored perCall).
  by rewrite IH, He.
Qed.

(** C9, amended: [SetDefaultReqOpts] stores the slice with its capacity
    clipped to its length, so the [append] of [do] and of [DownloadFile]
    moves to a new backing array whenever the call has options of its own;
    with none it returns the stored slice itself and writes nothing.
    Either way its result reads as the default options followed by those
    of the call, and after any calls, with any options, the stored list
    has the elements it was given, one by one. *)
Theorem default_reqOpts_unchanged (h : gmap nat (list A)) reqOpts perCall :
  Slices.valid h reqOpts →
  let stored := Slices.SetDefaultReqOpts reqOpts in
  Slices.cap stored = Slices.len stored ∧
  Slices.elems (calls h stored perCall) stored = Slices.elems h reqOpts ∧
  ∀ (h1 : gmap nat (list A)) opts,
    Slices.valid h1 stored →
    Slices.elems (appendReqOpts h1 stored opts).1 (appendReqOpts h1 stored opts).2 =
      Slices.elems h1 stored ++ Slices.elems h1 opts ∧
    Slices.elems (appendReqOpts h1 stored opts).1 stored = Slices.elems h1 stored ∧
    (Slices.elems h1 opts ≠ [] →
       ∃ a, Slices.arr (appendReqOpts h1 stored opts).2 = Some a ∧ h1 !! a = None) ∧
    (Slices.elems h1 opts = [] → appendReqOpts h1 stored opts = (h1, stored)).
Proof.
  intros Hvalid stored. subst stored. unfold Slices.SetDefaultReqOpts.
  split; [done|]. split.
  { rewrite calls_frame; [done | by apply clip_valid | done]. }
  intros h1 opts Hv1. unfold Slices.appendReqOpts.
  destruct (append_frame h1 (Slices.clip reqOpts) (Slices.elems h1 opts) Hv1 eq_refl)
    as [_ Hframe].
  destruct (Slices.elems h1 opts) as [|x xs] eqn:Hopts.
  - rewrite append_nothing by done. cbn [fst snd]. rewrite app_nil_r.
    repeat split; done.
  - destruct (append_full h1 (Slices.clip reqOpts) (x :: xs) Hv1 eq_refl)
      as (l & c & Happ & Hfresh & Htake); [done|].
    rewrite Happ in *. cbn [fst snd] in *. repeat split; try done.
    + unfold Slices.elems at 1, Slices.array. cbn.
      by rewrite lookup_total_insert_eq, drop_0.
    + by exists (fresh (dom h1)).
Qed.

End SliceProperties.

(** * More of the package *)

Section MoreProperties.
Context `{E : Env}.

#[local] Arguments count : simpl never.
#[local] Arguments optionCalls : simpl never.

(** ** The run of [do], event by event *)

Lemma do_read_events client logger resp reader st :
  do_read client logger resp reader st =
  (match body_err reader with
   | Some err => ("", Some err)
   | None => (body_data reader, None)
   end, st, readEvents client logger resp reader).
Proof.
  unfold do_read, readEvents. rewrite bind_run. cbn.
  destruct (body_err reader) as [err|]; [|destruct (cl_debugTraffic client)];
    reflexivity.
Qed.

Lemma do_response_events client logger resp st :
  do_response client logger resp st =
  (outcome resp, st, responseEvents client logger resp).
Proof.
  unfold do_response, responseEvents, outcome, decode, badStatus.
  destruct ((resp_StatusCode resp <? 200) || (resp_StatusCode resp >=? 300)).
  { reflexivity. }
  destruct (String.eqb (Header_Get (resp_Header resp) "Content-Encoding") "gzip").
  - rewrite bind_run. cbn.
    destruct (gzip_NewReader (resp_Body resp)) as [err|reader]; [reflexivity|].
    rewrite bind_run, do_read_events. cbn.
    destruct (body_err reader); reflexivity.
  - rewrite do_read_events. destruct (body_err (resp_Body resp)); reflexivity.
Qed.

Lemma do_run ctx method url body reqOpts st out st' t :
  do ctx method url body reqOpts st = (out, st', t) →
  doRun ctx method url body reqOpts st out st' t.
Proof.
  unfold do. rewrite bind_run. cbn.
  destruct (http_NewRequest method url body) as [err|req0] eqn:Hnew.
  { cbn. intros [= <- <- <-]. by constructor. }
  rewrite bind_run. cbn. rewrite bind_run.
  destruct (applyOptions_chain (cl_reqOpts (st_client st) ++ reqOpts) ctx req0 st)
    as (calls & r & -> & Hchain).
  destruct r as [err|[ctx' req]].
  { cbn. rewrite app_nil_r. intros [= <- <- <-]. by econstructor. }
  rewrite bind_run.
  assert (∃ st1, defaultTimeout st = (tt, st1, []) ∧ st1 = timedOut st ∧
                 st_net st1 = st_net st) as (st1 & -> & Hst1 & Hnet).
  { unfold timedOut, defaultTimeout. rewrite bind_run. cbn.
    destruct (cl_Timeout (st_client st) =? 0); cbn; eexists; done. }
  rewrite bind_run. cbn. rewrite bind_run. unfold dispatch at 1.
  rewrite Hnet.
  destruct (http_Do (st_net st) (cl_Timeout (st_client st1)) req)
    as [net [err|resp]] eqn:Hdo.
  - cbn. subst st1. intros [= <- <- <-].
    eapply run_transportFails; eauto.
  - rewrite bind_run, do_response_events. cbn. subst st1.
    intros [= <- <- <-].
    eapply run_responds; eauto.
Qed.

Lemma responseEvents_dispatch client logger resp req r :
  EvDispatch req r ∉ responseEvents client logger resp.
Proof.
  unfold responseEvents, readEvents.
  destruct (badStatus resp); [|destruct (String.eqb _ _);
    [destruct (gzip_NewReader _)|]]; cbn; intros H;
    repeat (apply elem_of_cons in H as [H|H]; [discriminate|]);
    by apply elem_of_nil in H.
Qed.

Lemma callEvent_dispatch calls req r : EvDispatch req r ∉ map callEvent calls.
Proof. intros H. apply callEvent_isOption in H. discriminate. Qed.

(** A dispatch among the events of [do]: which one it is, and the rest of
    the run. *)
Lemma do_dispatched ctx method url body reqOpts st out st' t req r :
  do ctx method url body reqOpts st = (out, st', t) →
  EvDispatch req r ∈ t →
  ∃ req0 calls ctx',
    http_NewRequest method url body = inr req0 ∧
    chain (cl_reqOpts (st_client st) ++ reqOpts) ctx req0 calls (inr (ctx', req)) ∧
    http_Do (st_net st) (cl_Timeout (st_client (timedOut st))) req = (st_net st', r) ∧
    st' = withNet (timedOut st) (st_net st') ∧
    let logger := doLogger (st_client (timedOut st)) method body req in
    match r with
    | inl err =>
        out = ("", Some err) ∧
        t = EvNewRequest method url body :: map callEvent calls ++
            [EvDispatch req (inl err);
             EvLog (mkLog ErrorLevel "do http request"
                      (logger ++ [FError err; FDuration "proc_time"]))]
    | inr resp =>
        out = outcome resp ∧
        t = EvNewRequest method url body :: map callEvent calls ++
            EvDispatch req (inr resp) ::
            responseEvents (st_client (timedOut st)) logger resp ++
            [EvClose RespBody]
    end.
Proof.
  intros Hdo Hin. apply do_run in Hdo.
  destruct Hdo as [err Hnew|req0 calls err Hnew Hchain
                  |req0 calls ctx' req1 net err Hnew Hchain Hnet
                  |req0 calls ctx' req1 net resp Hnew Hchain Hnet].
  - apply list_elem_of_singleton in Hin. discriminate.
  - apply elem_of_cons in Hin as [Hin|Hin]; [discriminate|].
    by apply callEvent_dispatch in Hin.
  - apply elem_of_cons in Hin as [Hin|Hin]; [discriminate|].
    apply elem_of_app in Hin as [Hin|Hin]; [by apply callEvent_dispatch in Hin|].
    apply elem_of_cons in Hin as [Hin|Hin];
      [|apply list_elem_of_singleton in Hin; discriminate].
    injection Hin as -> ->. exists req0, calls, ctx'. cbn. done.
  - apply elem_of_cons in Hin as [Hin|Hin]; [discriminate|].
    apply elem_of_app in Hin as [Hin|Hin]; [by apply callEvent_dispatch in Hin|].
    apply elem_of_cons in Hin as [Hin|Hin].
    + injection Hin as -> ->. exists req0, calls, ctx'. cbn. done.
    + apply elem_of_app in Hin as [Hin|Hin];
        [by apply responseEvents_dispatch in Hin|].
      apply list_elem_of_singleton in Hin. discriminate.
Qed.


Lemma timedOut_client st :
  st_client (timedOut st) =
  mkClient (if cl_Timeout (st_client st) =? 0 then DefaultTimeout
            else cl_Timeout (st_client st))
           (cl_retrier (st_client st)) (cl_reqOpts (st_client st))
           (cl_debugTraffic (st_client st)) ∧
  st_frame (timedOut st) = st_frame st.
Proof.
  unfold timedOut, defaultTimeout. rewrite bind_run. cbn.
  destruct (cl_Timeout (st_client st) =? 0) eqn:Hz; cbn; [done|].
  by destruct st as [[] ? ?].
Qed.

(** The log record of the events from the response on: the logger's
    fields, then those of the outcome. *)
Lemma responseEvents_log client logger resp r :
  EvLog r ∈ responseEvents client logger resp →
  ∃ fields,
    log_fields r = logger ++ fields ∧
    match (outcome resp).2 with
    | Some e =>
        log_level r = ErrorLevel ∧ fields = [FError e; FDuration "proc_time"]
    | None =>
        log_level r = DebugLevel ∧ log_msg r = "request success" ∧
        fields =
          (if cl_debugTraffic client
           then [FString "result" (outcome resp).1] else []) ++
          [FString "set_cookies" (cookieSummary (resp_Cookies resp));
           FDuration "proc_time"]
    end.
Proof.
  unfold responseEvents, readEvents, outcome, decode.
  destruct (badStatus resp).
  { intros H%list_elem_of_singleton. injection H as ->. cbn. eauto. }
  destruct (String.eqb _ _).
  - destruct (gzip_NewReader (resp_Body resp)) as [err|reader]; cbn; intros H.
    + apply elem_of_cons in H as [H|H]; [discriminate|].
      apply list_elem_of_singleton in H. injection H as ->. cbn. eauto.
    + apply elem_of_cons in H as [H|H]; [discriminate|].
      apply elem_of_cons in H as [H|H]; [discriminate|].
      apply elem_of_cons in H as [H|H];
        [|apply list_elem_of_singleton in H; discriminate].
      injection H as ->. destruct (body_err reader); cbn; eauto.
  - cbn. intros H.
    apply elem_of_cons in H as [H|H]; [discriminate|].
    apply list_elem_of_singleton in H.
    injection H as ->. destruct (body_err (resp_Body resp)); cbn; eauto.
Qed.

(** A log record among the events of [do]: the call dispatched, and the
    record holds the logger's fields, then those of the outcome. *)
Lemma do_logged ctx method url body reqOpts st result err st' t r :
  do ctx method url body reqOpts st = (result, err, st', t) →
  EvLog r ∈ t →
  ∃ req out fields,
    EvDispatch req out ∈ t ∧
    log_fields r =
      doLogger (st_client (timedOut st)) method body req ++ fields ∧
    match err with
    | Some e =>
        log_level r = ErrorLevel ∧ fields = [FError e; FDuration "proc_time"]
    | None =>
        log_level r = DebugLevel ∧ log_msg r = "request success" ∧
        ∃ resp, out = inr resp ∧
        fields =
          (if cl_debugTraffic (st_client st)
           then [FString "result" result] else []) ++
          [FString "set_cookies" (cookieSummary (resp_Cookies resp));
           FDuration "proc_time"]
    end.
Proof.
  intros Hdo Hin. apply do_run in Hdo.
  inversion Hdo as [e Hnew|req0 calls e Hnew Hchain
                   |req0 calls ctx' req net e Hnew Hchain Hnet
                   |req0 calls ctx' req net resp Hnew Hchain Hnet]; subst.
  - apply list_elem_of_singleton in Hin. discriminate.
  - apply elem_of_cons in Hin as [Hin|Hin]; [discriminate|].
    apply callEvent_isOption in Hin. discriminate.
  - exists req, (inl e). eexists.
    apply elem_of_cons in Hin as [Hin|Hin]; [discriminate|].
    apply elem_of_app in Hin as [Hin|Hin];
      [apply callEvent_isOption in Hin; discriminate|].
    apply elem_of_cons in Hin as [Hin|Hin]; [discriminate|].
    apply list_elem_of_singleton in Hin. injection Hin as ->.
    split; [|cbn; done].
    apply list_elem_of_further, elem_of_app. right. apply list_elem_of_here.
  - exists req, (inr resp).
    apply elem_of_cons in Hin as [Hin|Hin]; [discriminate|].
    apply elem_of_app in Hin as [Hin|Hin];
      [apply callEvent_isOption in Hin; discriminate|].
    apply elem_of_cons in Hin as [Hin|Hin]; [discriminate|].
    apply elem_of_app in Hin as [Hin|Hin];
      [|apply list_elem_of_singleton in Hin; discriminate].
    apply responseEvents_log in Hin as (fields & Hf & Hout).
    exists fields. split.
    { apply list_elem_of_further, elem_of_app. right. apply list_elem_of_here. }
    split; [done|].
    match goal with H : outcome resp = _ |- _ => rewrite H in Hout end.
    cbn in Hout. destruct err as [e|]; [done|].
    destruct Hout as (? & ? & ->). do 2 (split; [done|]).
    exists resp. split; [done|].
    by rewrite (proj1 (timedOut_client st)).
Qed.



(** X3: the traffic debug flag: with it set (the default of [New]), the record
    of [do] holds the request body, and the response text when the call
    succeeds; with it cleared ([DisableTrafficDebug]), the only text fields
    of the record are the method, the URL and the cookie names and
    values. *)
Theorem do_traffic_debug ctx method url body reqOpts st result err st' t r :
  do ctx method url body reqOpts st = (result, err, st', t) →
  EvLog r ∈ t →
  if cl_debugTraffic (st_client st)
  then FString "body" body ∈ log_fields r ∧
       (err = None → FString "result" result ∈ log_fields r)
  else ∀ k v, FString k v ∈ log_fields r →
              k = "method" ∨ k = "url" ∨ k = "set_cookies".
Proof.
  intros Hdo Hin.
  destruct (do_logged _ _ _ _ _ _ _ _ _ _ _ Hdo Hin)
    as (req & out & fields & Hd & Hf & Herr).
  unfold doLogger in Hf. rewrite (proj1 (timedOut_client st)) in Hf. cbn in Hf.
  destruct (cl_debugTraffic (st_client st)).
  - split.
    + rewrite Hf. cbn. rewrite !elem_of_cons. auto.
    + intros ->. destruct Herr as (_ & _ & resp & _ & ->).
      rewrite Hf. cbn. rewrite !elem_of_cons. auto.
  - intros k v Hk. rewrite Hf in Hk. cbn in Hk.
    destruct err as [e|].
    + destruct Herr as [_ ->]. cbn in Hk.
      repeat (apply elem_of_cons in Hk as [Hk|Hk];
              [first [discriminate | injection Hk as -> ->; auto]|]).
      by apply elem_of_nil in Hk.
    + destruct Herr as (_ & _ & resp & _ & ->). cbn in Hk.
      repeat (apply elem_of_cons in Hk as [Hk|Hk];
              [first [discriminate | injection Hk as -> ->; auto]|]).
      by apply elem_of_nil in Hk.
Qed.

Lemma filter_callEvent (p : Event → bool) calls :
  (∀ opt ctx req, p (EvOption opt ctx req) = false) →
  filter (λ e, p e = true) (map callEvent calls) = [].
Proof.
  intros Hp. induction calls as [|[[opt c] q] calls IH]; [done|].
  cbn [map]. rewrite filter_cons_False; [done|].
  unfold callEvent. cbn [fst snd]. rewrite Hp. done.
Qed.

(** X4: closing.  A call that received a response closes its body, last of all,
    whatever happens to the response; the gzip reader is closed when, and
    only when, it was created, and before the body; a call that received no
    response closes nothing. *)
Theorem do_closes ctx method url body reqOpts st out st' t :
  do ctx method url body reqOpts st = (out, st', t) →
  (∀ req resp, EvDispatch req (inr resp) ∈ t →
     last t = Some (EvClose RespBody) ∧
     filter (λ e, isClose e = true) t =
       (if badStatus resp then []
        else if String.eqb (Header_Get (resp_Header resp) "Content-Encoding") "gzip"
             then match gzip_NewReader (resp_Body resp) with
                  | inr _ => [EvClose GzipReader]
                  | inl _ => []
                  end
             else []) ++ [EvClose RespBody]) ∧
  ((∀ req resp, EvDispatch req (inr resp) ∉ t) →
   filter (λ e, isClose e = true) t = []).
Proof.
  intros Hdo. split.
  - intros req resp Hin.
    destruct (do_dispatched _ _ _ _ _ _ _ _ _ _ _ Hdo Hin)
      as (req0 & calls & ctx' & _ & _ & _ & _ & _ & ->).
    split.
    { rewrite app_comm_cons, (app_comm_cons _ [EvClose RespBody]), app_assoc.
      apply last_snoc. }
    rewrite filter_cons_False by (cbn; done).
    rewrite filter_app, filter_callEvent by done. cbn [app].
    rewrite filter_cons_False by (cbn; done).
    rewrite filter_app. f_equal.
    unfold responseEvents, readEvents.
    destruct (badStatus resp); [done|].
    destruct (String.eqb _ _); [|done].
    destruct (gzip_NewReader _); done.
  - intros Hno. apply do_run in Hdo.
    inversion Hdo as [e Hnew|req0 calls e Hnew Hchain
                     |req0 calls ctx' req net e Hnew Hchain Hnet
                     |req0 calls ctx' req net resp Hnew Hchain Hnet]; subst.
    + done.
    + rewrite filter_cons_False by (cbn; done). by apply filter_callEvent.
    + rewrite filter_cons_False by (cbn; done).
      rewrite filter_app, filter_callEvent by done. done.
    + exfalso. apply (Hno req resp).
      apply list_elem_of_further, elem_of_app. right. apply list_elem_of_here.
Qed.

(** ** The events of [Do] *)

Lemma Run_loop_events (P : Event → Prop) classify remaining (work : M (option error)) :
  (∀ d, P (EvSleep d)) →
  (∀ st e, e ∈ (work st).2 → P e) →
  ∀ st e, e ∈ (Run_loop classify remaining work st).2 → P e.
Proof.
  intros Hsleep Hwork. induction remaining as [|d remaining IH]; intros st e;
    cbn [Run_loop]; rewrite bind_run; specialize (Hwork st);
    destruct (work st) as [[ret st1] t]; cbn [snd] in Hwork.
  - destruct (classify ret); cbn; rewrite app_nil_r; apply Hwork.
  - destruct (classify ret); cbn; rewrite ?app_nil_r; try apply Hwork.
    rewrite bind_run. cbn. specialize (IH st1).
    destruct (Run_loop classify remaining work st1) as [[r st2] t2].
    cbn [snd] in IH. cbn.
    intros [He|[->|He]%elem_of_cons]%elem_of_app; auto.
Qed.

(** Whatever holds of the events of every [do], and of a sleep, holds of
    the events of [Do]. *)
Lemma Do_events (P : Event → Prop) ctx method url body reqOpts :
  (∀ d, P (EvSleep d)) →
  (∀ st e, e ∈ (do ctx method url body reqOpts st).2 → P e) →
  ∀ st e, e ∈ (Do ctx method url body reqOpts st).2 → P e.
Proof.
  intros Hsleep Hdo st e. unfold Do. rewrite bind_run. cbn.
  destruct (cl_retrier (st_client st)) as [r|].
  - rewrite bind_run. cbn. rewrite bind_run.
    pose proof (Run_loop_events P (class r) (backoff r)
                  (attempt ctx method url body reqOpts) Hsleep) as Hrun.
    unfold Retrier_Run.
    match goal with
    | |- context [Run_loop ?c ?b ?w ?s] =>
        specialize (Hrun ltac:(intros st0 e0; rewrite attempt_run;
                               specialize (Hdo st0 e0);
                               destruct (do ctx method url body reqOpts st0)
                                 as [[? ?] ?]; exact Hdo) s e);
        destruct (Run_loop c b w s) as [[err st2] t2]
    end.
    cbn in Hrun |- *. rewrite bind_run. cbn. rewrite app_nil_r. exact Hrun.
  - destruct (do ctx method url body reqOpts st) as [[out st1] t1] eqn:Hrun.
    cbn. intros He. apply (Hdo st e). rewrite Hrun. exact He.
Qed.

Lemma do_newRequest_event ctx method url body reqOpts st method' url' body' :
  EvNewRequest method' url' body' ∈ (do ctx method url body reqOpts st).2 →
  method' = method ∧ url' = url ∧ body' = body.
Proof.
  destruct (do_one_NewRequest ctx method url body reqOpts st) as [Hn _].
  destruct (do ctx method url body reqOpts st) as [[out st'] t] eqn:Hdo.
  cbn [snd] in *. apply do_run in Hdo.
  assert (∃ rest, t = EvNewRequest method url body :: rest) as [rest ->].
  { inversion Hdo; subst; eauto. }
  rewrite count_cons in Hn. cbn in Hn.
  intros [Hin|Hin]%elem_of_cons.
  - by injection Hin as -> -> ->.
  - apply (count_zero_not_in isNewRequest) in Hin; [discriminate|lia].
Qed.

(** ** The verbs *)

(** X5: every verb method of the client and of its two wrappers builds its
    requests, on every attempt, with the method it is named after and the
    URL it was given; those of the client also with the body they were
    given. *)
Theorem verbs_method :
  (∀ verb f, (verb, f) ∈ Client_verbs →
     ∀ ctx url body reqOpts st method' url' body',
       EvNewRequest method' url' body' ∈ (f ctx url body reqOpts st).2 →
       method' = verb ∧ url' = url ∧ body' = body) ∧
  (∀ verb f, (verb, f) ∈ wrapper_verbs →
     ∀ ctx url body result reqOpts st method' url' body',
       EvNewRequest method' url' body' ∈ (f ctx url body result reqOpts st).2 →
       method' = verb ∧ url' = url).
Proof.
  assert (∀ ctx method url body reqOpts st method' url' body',
            EvNewRequest method' url' body' ∈ (Do ctx method url body reqOpts st).2 →
            method' = method ∧ url' = url ∧ body' = body) as HDo.
  { intros ctx method url body reqOpts st method' url' body' Hin.
    apply (Do_events
             (λ e, ∀ m u b, e = EvNewRequest m u b →
                            m = method ∧ u = url ∧ b = body)
             ctx method url body reqOpts) with (st := st) (e := EvNewRequest method' url' body');
      [done| |done|done].
    intros st0 e He m u b ->. by eapply do_newRequest_event. }
  assert (∀ ctx method url body result reqOpts st method' url' body',
            EvNewRequest method' url' body' ∈
              (JSONClient_Do ctx method url body result reqOpts st).2 →
            method' = method ∧ url' = url) as HJ.
  { intros ctx method url body result reqOpts st method' url' body' Hin.
    pose proof (JSONClient_Do_run ctx method url body result reqOpts st) as Hrun.
    destruct (JSONClient_bodyData body) as [e|bodyData].
    - destruct Hrun as (t & Heq & _ & Hn & _). rewrite Heq in Hin.
      apply (count_zero_not_in _ _ _ Hn) in Hin. discriminate.
    - cbn zeta in Hrun. destruct Hrun as (t1 & t3 & Heq & _ & (Hn1 & _) & _ & Hn3 & _).
      rewrite Heq in Hin. cbn [snd] in Hin.
      apply elem_of_app in Hin as [Hin|Hin];
        [apply (count_zero_not_in _ _ _ Hn1) in Hin; discriminate|].
      apply elem_of_app in Hin as [Hin|Hin];
        [|apply (count_zero_not_in _ _ _ Hn3) in Hin; discriminate].
      apply HDo in Hin. tauto. }
  assert (∀ ctx method url body result reqOpts st method' url' body',
            EvNewRequest method' url' body' ∈
              (XMLClient_Do ctx method url body result reqOpts st).2 →
            method' = method ∧ url' = url) as HX.
  { intros ctx method url body result reqOpts st method' url' body' Hin.
    pose proof (XMLClient_Do_run ctx method url body result reqOpts st) as Hrun.
    destruct (XMLClient_bodyData body) as [e|bodyData].
    - destruct Hrun as (t & Heq & _ & Hn & _). rewrite Heq in Hin.
      apply (count_zero_not_in _ _ _ Hn) in Hin. discriminate.
    - cbn zeta in Hrun. destruct Hrun as (t1 & t3 & Heq & _ & (Hn1 & _) & _ & Hn3 & _).
      rewrite Heq in Hin. cbn [snd] in Hin.
      apply elem_of_app in Hin as [Hin|Hin];
        [apply (count_zero_not_in _ _ _ Hn1) in Hin; discriminate|].
      apply elem_of_app in Hin as [Hin|Hin];
        [|apply (count_zero_not_in _ _ _ Hn3) in Hin; discriminate].
      apply HDo in Hin. tauto. }
  split.
  - intros verb f Hf ctx url body reqOpts st method' url' body'.
    unfold Client_verbs in Hf.
    repeat (apply elem_of_cons in Hf as [Hf|Hf];
            [injection Hf as -> ->; apply HDo|]).
    by apply elem_of_nil in Hf.
  - intros verb f Hf ctx url body result reqOpts st method' url' body'.
    unfold wrapper_verbs in Hf.
    repeat (apply elem_of_cons in Hf as [Hf|Hf];
            [injection Hf as -> ->; first [apply HJ | apply HX]|]).
    by apply elem_of_nil in Hf.
Qed.

(** ** Headers *)

Lemma chain_last opts opt ctx req calls ctx' req' :
  chain (opts ++ [opt]) ctx req calls (inr (ctx', req')) →
  ∃ ctx1 req1, opt ctx1 req1 = (ctx', req', None).
Proof.
  revert ctx req calls. induction opts as [|o opts IH]; intros ctx req calls H.
  - cbn in H. inversion H as [| |? ? ? ? ? ? ? ? Hopt Hrest]; subst.
    inversion Hrest; subst. eauto.
  - cbn in H. inversion H as [| |? ? ? ? ? ? ? ? Hopt Hrest]; subst. eauto.
Qed.

Lemma do_dispatch_last_header ctx method url body reqOpts key value st req out :
  EvDispatch req out ∈
    (do ctx method url body (reqOpts ++ [SetHeader key value]) st).2 →
  req_Header req !! CanonicalMIMEHeaderKey key = Some [value].
Proof.
  destruct (do ctx method url body (reqOpts ++ [SetHeader key value]) st)
    as [[o st1] t1] eqn:Hdo.
  cbn [snd]. intros He.
  destruct (do_dispatched _ _ _ _ _ _ _ _ _ _ _ Hdo He)
    as (req0 & calls & ctx' & _ & Hchain & _).
  rewrite app_assoc in Hchain.
  apply chain_last in Hchain as (ctx1 & req1 & Hopt).
  unfold SetHeader in Hopt. injection Hopt as _ <-.
  cbn. unfold Header_Set. by rewrite lookup_insert_eq.
Qed.

(** X6: the last option decides.  When the per-call options end in
    [SetHeader key value], every request [Do] dispatches, on every attempt,
    carries [value] under [key], whatever the default options and the
    options before it did to that header. *)
Theorem Do_last_header ctx method url body reqOpts key value st req out :
  EvDispatch req out ∈
    (Do ctx method url body (reqOpts ++ [SetHeader key value]) st).2 →
  Header_Get (req_Header req) key = value ∧
  req_Header req !! CanonicalMIMEHeaderKey key = Some [value].
Proof.
  intros Hin.
  assert (req_Header req !! CanonicalMIMEHeaderKey key = Some [value]) as Hget.
  { refine (Do_events
              (λ e, ∀ q r, e = EvDispatch q r →
                           req_Header q !! CanonicalMIMEHeaderKey key = Some [value])
              ctx method url body (reqOpts ++ [SetHeader key value])
              _ _ st _ Hin req out eq_refl); [done|].
    intros st0 e He q r ->. by eapply do_dispatch_last_header. }
  split; [|done]. unfold Header_Get. by rewrite Hget.
Qed.

Lemma JSONClient_dispatch ctx method url body result reqOpts st req out :
  EvDispatch req out ∈ (JSONClient_Do ctx method url body result reqOpts st).2 →
  ∃ bodyData,
    EvDispatch req out ∈ (Do ctx method url bodyData (SetTypeJSON :: reqOpts) st).2.
Proof.
  intros Hin.
  pose proof (JSONClient_Do_run ctx method url body result reqOpts st) as Hrun.
  destruct (JSONClient_bodyData body) as [e|bodyData].
  - destruct Hrun as (t & Heq & _ & _ & Hd & _). rewrite Heq in Hin.
    apply (count_zero_not_in _ _ _ Hd) in Hin. discriminate.
  - cbn zeta in Hrun.
    destruct Hrun as (t1 & t3 & Heq & _ & (_ & Hd1 & _) & Hd3 & _).
    rewrite Heq in Hin. cbn [snd] in Hin. exists bodyData.
    apply elem_of_app in Hin as [Hin|Hin];
      [apply (count_zero_not_in _ _ _ Hd1) in Hin; discriminate|].
    apply elem_of_app in Hin as [Hin|Hin]; [done|].
    apply (count_zero_not_in _ _ _ Hd3) in Hin. discriminate.
Qed.

Lemma XMLClient_dispatch ctx method url body result reqOpts st req out :
  EvDispatch req out ∈ (XMLClient_Do ctx method url body result reqOpts st).2 →
  ∃ bodyData,
    EvDispatch req out ∈ (Do ctx method url bodyData (SetTypeXML :: reqOpts) st).2.
Proof.
  intros Hin.
  pose proof (XMLClient_Do_run ctx method url body result reqOpts st) as Hrun.
  destruct (XMLClient_bodyData body) as [e|bodyData].
  - destruct Hrun as (t & Heq & _ & _ & Hd & _). rewrite Heq in Hin.
    apply (count_zero_not_in _ _ _ Hd) in Hin. discriminate.
  - cbn zeta in Hrun.
    destruct Hrun as (t1 & t3 & Heq & _ & (_ & Hd1 & _) & Hd3 & _).
    rewrite Heq in Hin. cbn [snd] in Hin. exists bodyData.
    apply elem_of_app in Hin as [Hin|Hin];
      [apply (count_zero_not_in _ _ _ Hd1) in Hin; discriminate|].
    apply elem_of_app in Hin as [Hin|Hin]; [done|].
    apply (count_zero_not_in _ _ _ Hd3) in Hin. discriminate.
Qed.

(** X7: the content type of the wrappers sits between the default options and
    those of the call.  With no option of the call, every request a wrapper
    dispatches carries the wrapper's content type, whatever the default
    options of the client set; an option of the call that sets the header,
    under any spelling of [Content-Type], replaces it. *)
Theorem wrappers_content_type ctx method url body result st req out :
  (EvDispatch req out ∈ (JSONClient_Do ctx method url body result [] st).2 →
   Header_Get (req_Header req) "Content-Type" = "application/json; charset=UTF-8") ∧
  (EvDispatch req out ∈ (XMLClient_Do ctx method url body result [] st).2 →
   Header_Get (req_Header req) "Content-Type" = "application/xml; charset=UTF-8") ∧
  (∀ reqOpts key value,
     CanonicalMIMEHeaderKey key = "Content-Type" →
     (EvDispatch req out ∈
        (JSONClient_Do ctx method url body result
           (reqOpts ++ [SetHeader key value]) st).2 →
      Header_Get (req_Header req) "Content-Type" = value) ∧
     (EvDispatch req out ∈
        (XMLClient_Do ctx method url body result
           (reqOpts ++ [SetHeader key value]) st).2 →
      Header_Get (req_Header req) "Content-Type" = value)) ∧
  CanonicalMIMEHeaderKey "content-type" = "Content-Type".
Proof.
  assert (∀ bodyData contentType reqOpts key value,
            EvDispatch req out ∈
              (Do ctx method url bodyData
                  (contentType :: reqOpts ++ [SetHeader key value]) st).2 →
            req_Header req !! CanonicalMIMEHeaderKey key = Some [value]) as HDo.
  { intros bodyData contentType reqOpts key value Hin.
    refine (Do_events
              (λ e, ∀ q r, e = EvDispatch q r →
                           req_Header q !! CanonicalMIMEHeaderKey key = Some [value])
              ctx method url bodyData
              (contentType :: reqOpts ++ [SetHeader key value])
              _ _ st _ Hin req out eq_refl); [done|].
    intros st0 e He q r ->.
    by eapply (do_dispatch_last_header _ _ _ _ (contentType :: reqOpts)). }
  assert (∀ bodyData value,
            EvDispatch req out ∈
              (Do ctx method url bodyData [SetHeader "Content-Type" value] st).2 →
            Header_Get (req_Header req) "Content-Type" = value) as HDo0.
  { intros bodyData value Hin. unfold Header_Get.
    refine (Do_events
              (λ e, ∀ q r, e = EvDispatch q r →
                           match req_Header q !! CanonicalMIMEHeaderKey "Content-Type" with
                           | Some (v :: _) => v
                           | _ => ""
                           end = value)
              ctx method url bodyData [SetHeader "Content-Type" value]
              _ _ st _ Hin req out eq_refl); [done|].
    intros st0 e He q r ->.
    by rewrite (do_dispatch_last_header _ _ _ _ [] _ _ _ _ _ He). }
  split; [|split; [|split; [|reflexivity]]].
  - intros [bodyData Hin]%JSONClient_dispatch. by apply HDo0 in Hin.
  - intros [bodyData Hin]%XMLClient_dispatch. by apply HDo0 in Hin.
  - intros reqOpts key value Hkey. split.
    + intros [bodyData Hin]%JSONClient_dispatch.
      apply HDo in Hin. unfold Header_Get. rewrite Hkey in Hin.
      change (CanonicalMIMEHeaderKey "Content-Type") with "Content-Type".
      by rewrite Hin.
    + intros [bodyData Hin]%XMLClient_dispatch.
      apply HDo in Hin. unfold Header_Get. rewrite Hkey in Hin.
      change (CanonicalMIMEHeaderKey "Content-Type") with "Content-Type".
      by rewrite Hin.
Qed.

(** ** Retrying *)

Lemma sleeps_app (t1 t2 : list Event) : sleeps (t1 ++ t2) = sleeps t1 ++ sleeps t2.
Proof. apply omap_app. Qed.

Lemma sleeps_count_zero (t : list Event) : count isSleep t = 0%nat → sleeps t = [].
Proof.
  induction t as [|e t IH]; [done|].
  rewrite count_cons. destruct e; cbn; intros H; try discriminate; by apply IH.
Qed.

Lemma Run_loop_attempts ctx method url body reqOpts remaining st :
  ∃ k result err st_last st_end t_pre t_last,
    Run_loop (Classify DefaultRetryClassifier) remaining
             (attempt ctx method url body reqOpts) st =
      (err, mkState (st_client st_end) (st_net st_end) (result, err),
       t_pre ++ t_last) ∧
    do ctx method url body reqOpts st_last = (result, err, st_end, t_last) ∧
    (k ≤ length remaining)%nat ∧
    count isNewRequest (t_pre ++ t_last) = S k ∧
    sleeps (t_pre ++ t_last) = take k remaining ∧
    (err = None ∨ k = length remaining).
Proof.
  revert st. induction remaining as [|d remaining IH]; intros st;
    cbn [Run_loop]; rewrite bind_run, attempt_run;
    destruct (do ctx method url body reqOpts st) as [[[result err] st1] t] eqn:Hdo;
    destruct (do_one_NewRequest ctx method url body reqOpts st) as [Hn Hs];
    rewrite Hdo in Hn, Hs; cbn [snd] in Hn, Hs;
    apply sleeps_count_zero in Hs.
  - exists 0%nat, result, err, st, st1, [], t.
    destruct err as [e|]; cbn; rewrite app_nil_r; auto 10.
  - destruct err as [e|].
    + cbn. rewrite bind_run. cbn.
      destruct (IH (mkState (st_client st1) (st_net st1) (result, Some e)))
        as (k & result' & err' & st_last & st_end & t_pre & t_last
            & -> & Hlast & Hk & Hcn & Hsl & Hend).
      exists (S k), result', err', st_last, st_end, (t ++ EvSleep d :: t_pre), t_last.
      split; [by rewrite <- !app_assoc|]. split; [done|].
      rewrite <- !app_assoc. cbn [app].
      rewrite (count_app _ t), count_cons, Hn, Hcn.
      rewrite (sleeps_app t), Hs. cbn [app].
      change (sleeps (EvSleep d :: t_pre ++ t_last))
        with (d :: sleeps (t_pre ++ t_last)).
      rewrite Hsl. cbn. split; [lia|]. do 2 (split; [done|]).
      destruct Hend; [auto|right; lia].
    + exists 0%nat, result, None, st, st1, [], t.
      cbn. rewrite app_nil_r. split; [done|]. split; [done|].
      repeat split; [lia|done|done|by left].
Qed.

(** X8: retrying, in general.  After [SetRetry] with a schedule of length N,
    [Do] makes between one and N+1 attempts; it waits between attempts for
    the entries of the schedule, in order, one per retry; it stops at the
    first attempt that succeeds, and short of N+1 attempts only for that;
    what it returns, text and error, is what its last attempt returned. *)
Theorem Do_retry_attempts ctx method url body reqOpts schedule st0 result err st' t :
  Do ctx method url body reqOpts (SetRetry schedule st0).1.2 = (result, err, st', t) →
  ∃ k, (k ≤ length schedule)%nat ∧
       count isNewRequest t = S k ∧
       sleeps t = take k schedule ∧
       (err = None ∨ k = length schedule) ∧
       ∃ st_last st_end t_pre t_last,
         do ctx method url body reqOpts st_last = (result, err, st_end, t_last) ∧
         t = t_pre ++ t_last.
Proof.
  intros HDo. rewrite SetRetry_run in HDo. cbn [fst snd] in HDo.
  unfold Do in HDo. rewrite bind_run in HDo. cbn in HDo.
  rewrite bind_run in HDo. cbn in HDo. rewrite bind_run in HDo.
  unfold Retrier_Run in HDo. cbn [class backoff retrier_New] in HDo.
  match type of HDo with
  | context [Run_loop _ _ _ ?s] =>
      destruct (Run_loop_attempts ctx method url body reqOpts schedule s)
        as (k & result' & err' & st_last & st_end & t_pre & t_last
            & Hrun & Hlast & Hk & Hcn & Hsl & Hend)
  end.
  rewrite Hrun in HDo. cbn in HDo. rewrite bind_run in HDo. cbn in HDo.
  rewrite ?app_nil_r in HDo. simplify_eq.
  exists k. do 4 (split; [done|]).
  by exists st_last, st_end, t_pre, t_last.
Qed.

End MoreProperties.

(** ** The message of an [HTTPError] *)

Lemma string_of_uint_clean (d : Decimal.uint) :
  contains "," (NilEmpty.string_of_uint d) = false.
Proof. induction d; cbn; done. Qed.

Lemma formatInt_clean (n : Z) : contains "," (formatInt n) = false.
Proof.
  unfold formatInt, NilZero.string_of_int, NilZero.string_of_uint.
  destruct (Z.to_int n) as [d|d]; destruct d; try reflexivity;
    first [apply string_of_uint_clean
          | change (contains "," (String "-" ?s)) with (contains "," s);
            apply string_of_uint_clean].
Qed.

Lemma formatInt_inj (n1 n2 : Z) : formatInt n1 = formatInt n2 → n1 = n2.
Proof.
  unfold formatInt. intros H.
  assert (∀ n, NilZero.int_of_string (NilZero.string_of_int (Z.to_int n)) =
               Some (Z.to_int n)) as Hisi.
  { intros n. apply NilZero.isi.
    - intros Hnil. pose proof (DecimalZ.of_to n) as Hn. rewrite Hnil in Hn.
      cbn in Hn. subst n. discriminate.
    - intros Hnil. pose proof (DecimalZ.of_to n) as Hn. rewrite Hnil in Hn.
      cbn in Hn. subst n. discriminate. }
  apply DecimalZ.to_int_inj.
  pose proof (Hisi n1) as H1. rewrite H, Hisi in H1. by injection H1.
Qed.

(** X10: the message of an [HTTPError] tells its fields: two errors with the
    same message have the same status code and the same status text. *)
Theorem HTTPError_Error_inj (e1 e2 : HTTPError) :
  HTTPError_Error e1 = HTTPError_Error e2 → e1 = e2.
Proof.
  unfold HTTPError_Error. intros H.
  cbn in H. injection H as H.
  apply (f_equal (cut ",")) in H.
  change (", " +:+ ?t) with (String "," (String " " t)) in H.
  change ("" +:+ ?t) with t in H.
  rewrite !cut_found in H by apply formatInt_clean.
  injection H as Hc Ht. apply formatInt_inj in Hc.
  destruct e1, e2; cbn in *. by subst.
Qed.

(** ** DownloadFile *)

Section DownloadProperties.
Context `{E : Env} `{F : FileSystem}.

#[local] Arguments count : simpl never.
#[local] Arguments optionCalls : simpl never.

Lemma bindF_run {A B} (m : MF A) (f : A → MF B) s :
  (m ≫= f) s =
  let '(a, s1, t1) := m s in
  let '(b, s2, t2) := f a s1 in
  (b, s2, t1 ++ t2).
Proof. reflexivity. Qed.

Lemma pipeline_run {A} (m : M A) s :
  pipeline m s = let '(a, st, t) := m s.1 in (a, (st, s.2), map FPipeline t).
Proof. reflexivity. Qed.

Lemma DownloadFile_save_run logger outFile resp st fs :
  DownloadFile_save logger outFile resp (st, fs) =
  match os_Create fs outFile with
  | (fs1, Some err) =>
      (Some err, (st, fs1),
       [FCreate outFile;
        FPipeline (errorRecord logger "create download file" err)])
  | (fs1, None) =>
      let '(fs2, (written, err)) := io_Copy fs1 outFile (resp_Body resp) in
      (err, (st, file_Close fs2 outFile),
       [FCreate outFile;
        FCopy outFile (resp_Body resp);
        FPipeline
          match err with
          | Some err =>
              errorRecord logger "copy response data to download file" err
          | None =>
              EvLog (mkLog DebugLevel "request success"
                       (logger ++
                        [FInt64 "file_size" written; FDuration "proc_time"]))
          end;
        FCloseFile outFile])
  end.
Proof.
  unfold DownloadFile_save. rewrite bindF_run. unfold create at 1. cbn [fst snd].
  destruct (os_Create fs outFile) as [fs1 [err|]]; [reflexivity|].
  rewrite bindF_run. unfold copy at 1. cbn [fst snd].
  destruct (io_Copy fs1 outFile (resp_Body resp)) as [fs2 [written [err|]]];
    reflexivity.
Qed.

Lemma DownloadFile_run ctx url outFile reqOpts st fs err s' t :
  DownloadFile ctx url outFile reqOpts (st, fs) = (err, s', t) →
  downloadRun ctx url outFile reqOpts st fs err s' t.
Proof.
  unfold DownloadFile. rewrite bindF_run. cbn.
  destruct (http_NewRequest "GET" url "") as [e|req0] eqn:Hnew.
  { cbn. intros [= <- <- <-]. by constructor. }
  rewrite bindF_run. cbn. rewrite bindF_run, pipeline_run. cbn [fst snd].
  destruct (applyOptions_chain (cl_reqOpts (st_client st) ++ reqOpts) ctx req0 st)
    as (calls & r & -> & Hchain).
  destruct r as [e|[ctx' req]].
  { cbn. rewrite app_nil_r. intros [= <- <- <-].
    eapply download_optionFails; eauto. }
  rewrite bindF_run, pipeline_run. cbn [fst snd].
  assert (∃ st1, defaultTimeout st = (tt, st1, []) ∧ st1 = timedOut st ∧
                 st_net st1 = st_net st) as (st1 & -> & Hst1 & Hnet).
  { unfold timedOut, defaultTimeout. rewrite bind_run. cbn.
    destruct (cl_Timeout (st_client st) =? 0); cbn; eexists; done. }
  rewrite bindF_run, pipeline_run. cbn [fst snd]. unfold dispatch at 1.
  rewrite Hnet.
  destruct (http_Do (st_net st) (cl_Timeout (st_client st1)) req)
    as [net [e|resp]] eqn:Hdo.
  - cbn. subst st1. intros [= <- <- <-].
    pose proof (download_transportFails ctx url outFile reqOpts st fs
                  req0 calls ctx' req net e Hnew Hchain Hdo) as H.
    cbn in H. rewrite map_app in H. cbn in H. exact H.
  - rewrite bindF_run.
    destruct ((resp_StatusCode resp <? 200) || (resp_StatusCode resp >=? 300)) eqn:Hs.
    + cbn. subst st1. intros [= <- <- <-].
      pose proof (download_badStatus ctx url outFile reqOpts st fs
                    req0 calls ctx' req net resp Hnew Hchain Hdo Hs) as H.
      cbn in H. rewrite map_app in H. cbn in H. exact H.
    + rewrite DownloadFile_save_run.
      destruct (os_Create fs outFile) as [fs1 [e|]] eqn:Hcreate.
      * cbn. subst st1. intros [= <- <- <-].
        pose proof (download_createFails ctx url outFile reqOpts st fs
                      req0 calls ctx' req net resp fs1 e Hnew Hchain Hdo Hs Hcreate)
          as H.
        cbn in H. rewrite map_app in H. cbn in H.
        rewrite <- app_assoc in H. exact H.
      * destruct (io_Copy fs1 outFile (resp_Body resp)) as [fs2 [written e]] eqn:Hcopy.
        cbn. subst st1. intros [= <- <- <-].
        pose proof (download_copies ctx url outFile reqOpts st fs
                      req0 calls ctx' req net resp fs1 fs2 written e
                      Hnew Hchain Hdo Hs Hcreate Hcopy) as H.
        cbn in H. rewrite map_app in H. cbn in H.
        rewrite <- app_assoc in H. exact H.
Qed.

Lemma pipelineEvents_app (t1 t2 : list FEvent) :
  pipelineEvents (t1 ++ t2) = pipelineEvents t1 ++ pipelineEvents t2.
Proof. apply omap_app. Qed.

Lemma pipelineEvents_map (t : list Event) : pipelineEvents (map FPipeline t) = t.
Proof.
  induction t as [|e t IH]; [done|]. cbn [map].
  change (pipelineEvents (FPipeline e :: ?l)) with (e :: pipelineEvents l).
  by rewrite IH.
Qed.

Lemma fileEvents_app (t1 t2 : list FEvent) :
  fileEvents (t1 ++ t2) = fileEvents t1 ++ fileEvents t2.
Proof. apply filter_app. Qed.

Lemma fileEvents_map (t : list Event) : fileEvents (map FPipeline t) = [].
Proof.
  induction t as [|e t IH]; [done|].
  cbn [map]. unfold fileEvents. by rewrite filter_cons_False.
Qed.

(** What a download leaves, by the way it took: the pipeline events, the
    file events, and the last event. *)
Lemma downloadRun_events ctx url outFile reqOpts st fs err s' t :
  downloadRun ctx url outFile reqOpts st fs err s' t →
  ∃ calls tail,
    pipelineEvents t = EvNewRequest "GET" url "" :: map callEvent calls ++ tail ∧
    (tail = [] ∧ s' = (st, fs) ∧ fileEvents t = [] ∧ err ≠ None ∨
     (∃ req e r, tail = [EvDispatch req (inl e); EvLog r] ∧
                 s'.2 = fs ∧ fileEvents t = [] ∧ err = Some e) ∨
     (∃ req resp r,
        tail = [EvDispatch req (inr resp); EvLog r; EvClose RespBody] ∧
        last t = Some (FPipeline (EvClose RespBody)) ∧
        if badStatus resp
        then s'.2 = fs ∧ fileEvents t = [] ∧
             err = Some (ErrHTTP (mkHTTPError (resp_StatusCode resp)
                                              (resp_Status resp)))
        else match os_Create fs outFile with
             | (fs1, Some e) =>
                 err = Some e ∧ s'.2 = fs1 ∧ fileEvents t = [FCreate outFile]
             | (fs1, None) =>
                 let '(fs2, (written, cerr)) :=
                   io_Copy fs1 outFile (resp_Body resp) in
                 err = cerr ∧ s'.2 = file_Close fs2 outFile ∧
                 fileEvents t =
                   [FCreate outFile; FCopy outFile (resp_Body resp);
                    FCloseFile outFile]
             end)).
Proof.
  intros Hrun.
  destruct Hrun as [e Hnew|req0 calls e Hnew Hchain
                   |req0 calls ctx' req net e Hnew Hchain Hnet
                   |req0 calls ctx' req net resp Hnew Hchain Hnet Hs
                   |req0 calls ctx' req net resp fs1 e Hnew Hchain Hnet Hs Hcreate
                   |req0 calls ctx' req net resp fs1 fs2 written e
                    Hnew Hchain Hnet Hs Hcreate Hcopy].
  - exists [], []. split; [done|]. left. done.
  - exists calls, []. rewrite pipelineEvents_map, fileEvents_map, app_nil_r.
    split; [done|]. left. done.
  - exists calls. eexists. rewrite pipelineEvents_map, fileEvents_map.
    split; [done|]. right. left. unfold errorRecord. eauto 10.
  - exists calls. eexists. rewrite pipelineEvents_map, fileEvents_map.
    split; [done|]. right. right. exists req, resp. eexists.
    unfold errorRecord. split; [done|]. split.
    { rewrite map_cons, map_app. cbn [map].
      rewrite app_comm_cons.
      change [FPipeline ?a; FPipeline ?b; FPipeline ?c]
        with ([FPipeline a; FPipeline b] ++ [FPipeline c]).
      rewrite app_assoc. apply last_snoc. }
    rewrite Hs. done.
  - exists calls. eexists.
    rewrite pipelineEvents_app, fileEvents_app, pipelineEvents_map, fileEvents_map.
    split; [cbn; rewrite <- app_assoc; cbn; done|].
    right. right. exists req, resp. eexists. unfold errorRecord.
    split; [done|]. split.
    { change [FCreate ?a; ?b; ?c] with ([FCreate a; b] ++ [c]).
      rewrite app_assoc. apply last_snoc. }
    rewrite Hs, Hcreate. done.
  - exists calls. eexists.
    rewrite pipelineEvents_app, fileEvents_app, pipelineEvents_map, fileEvents_map.
    split; [cbn; rewrite <- app_assoc; cbn; done|].
    right. right. exists req, resp.
    destruct e as [e|]; unfold errorRecord; eexists;
      (split; [done|]); (split;
        [change [FCreate ?a; ?b; ?c; ?d; ?e'] with ([FCreate a; b; c; d] ++ [e']);
         rewrite app_assoc; apply last_snoc|]);
      rewrite Hs, Hcreate, Hcopy; done.
Qed.

Lemma DownloadFile_events ctx url outFile reqOpts st fs err s' t :
  DownloadFile ctx url outFile reqOpts (st, fs) = (err, s', t) →
  ∃ calls tail,
    pipelineEvents t = EvNewRequest "GET" url "" :: map callEvent calls ++ tail ∧
    (tail = [] ∧ s' = (st, fs) ∧ fileEvents t = [] ∧ err ≠ None ∨
     (∃ req e r, tail = [EvDispatch req (inl e); EvLog r] ∧
                 s'.2 = fs ∧ fileEvents t = [] ∧ err = Some e) ∨
     (∃ req resp r,
        tail = [EvDispatch req (inr resp); EvLog r; EvClose RespBody] ∧
        last t = Some (FPipeline (EvClose RespBody)) ∧
        if badStatus resp
        then s'.2 = fs ∧ fileEvents t = [] ∧
             err = Some (ErrHTTP (mkHTTPError (resp_StatusCode resp)
                                              (resp_Status resp)))
        else match os_Create fs outFile with
             | (fs1, Some e) =>
                 err = Some e ∧ s'.2 = fs1 ∧ fileEvents t = [FCreate outFile]
             | (fs1, None) =>
                 let '(fs2, (written, cerr)) :=
                   io_Copy fs1 outFile (resp_Body resp) in
                 err = cerr ∧ s'.2 = file_Close fs2 outFile ∧
                 fileEvents t =
                   [FCreate outFile; FCopy outFile (resp_Body resp);
                    FCloseFile outFile]
             end)).
Proof.
  intros H. apply DownloadFile_run in H.
  exact (downloadRun_events _ _ _ _ _ _ _ _ _ H).
Qed.

Ltac tail_cases H :=
  apply elem_of_cons in H as [H|H]; [discriminate|];
  apply elem_of_app in H as [H|H];
  [apply callEvent_isOption in H; discriminate|];
  repeat (apply elem_of_cons in H as [H|H]; [try discriminate|]);
  try (by apply elem_of_nil in H).

(** X11: [DownloadFile] makes one attempt, whatever the retry policy of the
    client: it builds one request, a GET of the URL, dispatches at most
    once and never waits; and it never reads the body through
    [ioutil.ReadAll] or a gzip reader. *)
Theorem DownloadFile_once ctx url outFile reqOpts st fs :
  let t := pipelineEvents (DownloadFile ctx url outFile reqOpts (st, fs)).2 in
  head t = Some (EvNewRequest "GET" url "") ∧
  count isNewRequest t = 1%nat ∧
  (count isDispatch t ≤ 1)%nat ∧
  count isSleep t = 0%nat ∧
  count isBodyRead t = 0%nat.
Proof.
  destruct (DownloadFile ctx url outFile reqOpts (st, fs)) as [[err s'] t] eqn:Hrun.
  cbn [snd]. apply DownloadFile_events in Hrun as (calls & tail & -> & Htail).
  cbn zeta. split; [done|].
  rewrite !count_cons, !count_app.
  rewrite (count_callEvent isNewRequest), (count_callEvent isDispatch),
    (count_callEvent isSleep), (count_callEvent isBodyRead) by done.
  destruct Htail as [(-> & _)|[(req & e & r & -> & _)|(req & resp & r & -> & _)]];
    rewrite ?count_cons, ?count_nil; cbn; repeat split; lia.
Qed.

(** X12: a download that gets no 2xx response leaves the file system alone: no
    file is created, none is written, and the call returns an error, which
    for a response outside of 2xx is the [HTTPError] of its status. *)
Theorem DownloadFile_failure_keeps_files ctx url outFile reqOpts st fs err st' fs' t :
  DownloadFile ctx url outFile reqOpts (st, fs) = (err, (st', fs'), t) →
  (∀ req resp, EvDispatch req (inr resp) ∈ pipelineEvents t →
               resp_StatusCode resp < 200 ∨ 300 ≤ resp_StatusCode resp) →
  fs' = fs ∧ fileEvents t = [] ∧ err ≠ None ∧
  ∀ req resp, EvDispatch req (inr resp) ∈ pipelineEvents t →
    err = Some (ErrHTTP (mkHTTPError (resp_StatusCode resp) (resp_Status resp))).
Proof.
  intros Hrun Hbad.
  apply DownloadFile_events in Hrun as (calls & tail & Hp & Htail).
  rewrite Hp in Hbad |- *.
  destruct Htail as [(-> & Hs & Hf & He)
                    |[(req & e & r & -> & Hs & Hf & He)
                     |(req & resp & r & -> & _ & Hcase)]].
  - injection Hs as -> ->. do 3 (split; [done|]).
    intros req resp Hin. tail_cases Hin.
  - cbn in Hs. subst. do 3 (split; [done|]).
    intros req' resp Hin. tail_cases Hin.
  - assert (badStatus resp = true) as Hs.
    { apply badStatus_true, (Hbad req).
      apply list_elem_of_further, elem_of_app. right. apply list_elem_of_here. }
    rewrite Hs in Hcase. destruct Hcase as (Hfs & Hf & ->). cbn in Hfs.
    do 3 (split; [done|]).
    intros req' resp' Hin. tail_cases Hin. by injection Hin as -> ->.
Qed.

(** X13: a download that gets a 2xx response creates the file and copies the
    body of the response into it as it came, whatever its
    [Content-Encoding]; the file is closed once it was created, and the
    body of the response last of all.  The call returns the error of
    [os.Create], or else that of [io.Copy], or else none. *)
Theorem DownloadFile_saves ctx url outFile reqOpts st fs err st' fs' t req resp :
  DownloadFile ctx url outFile reqOpts (st, fs) = (err, (st', fs'), t) →
  EvDispatch req (inr resp) ∈ pipelineEvents t →
  200 ≤ resp_StatusCode resp < 300 →
  last t = Some (FPipeline (EvClose RespBody)) ∧
  match os_Create fs outFile with
  | (fs1, Some e) =>
      err = Some e ∧ fs' = fs1 ∧ fileEvents t = [FCreate outFile]
  | (fs1, None) =>
      let '(fs2, (written, cerr)) := io_Copy fs1 outFile (resp_Body resp) in
      err = cerr ∧ fs' = file_Close fs2 outFile ∧
      fileEvents t =
        [FCreate outFile; FCopy outFile (resp_Body resp); FCloseFile outFile]
  end.
Proof.
  intros Hrun Hin Hok.
  apply DownloadFile_events in Hrun as (calls & tail & Hp & Htail).
  rewrite Hp in Hin.
  destruct Htail as [(-> & _)
                    |[(req1 & e & r & -> & _)
                     |(req1 & resp1 & r & -> & Hlast & Hcase)]].
  - tail_cases Hin.
  - tail_cases Hin.
  - tail_cases Hin. injection Hin as -> ->.
    rewrite (badStatus_false _ Hok) in Hcase. split; [done|]. exact Hcase.
Qed.

End DownloadProperties.

Section OptionProperties.
Context `{E : Env}.

(** ** Request options, composed *)


(** X16: [SetHeader] twice.  Under the same canonical key the second value
    replaces the first, as if the first option had not run; under different
    keys the two options commute.  The key is canonicalised, so
    [content-type] and [Content-Type] are the same key. *)
Theorem SetHeader_compose key1 value1 key2 value2 (ctx : Ctx) (req : Request) :
  let both o1 o2 := o2 (o1 ctx req).1.1 (o1 ctx req).1.2 in
  (CanonicalMIMEHeaderKey key1 = CanonicalMIMEHeaderKey key2 →
   both (SetHeader key1 value1) (SetHeader key2 value2) =
   SetHeader key2 value2 ctx req) ∧
  (CanonicalMIMEHeaderKey key1 ≠ CanonicalMIMEHeaderKey key2 →
   both (SetHeader key1 value1) (SetHeader key2 value2) =
   both (SetHeader key2 value2) (SetHeader key1 value1)) ∧
  (∀ k, Header_Get (req_Header (both (SetHeader key1 value1)
                                      (SetHeader key2 value2)).1.2) k =
        if decide (CanonicalMIMEHeaderKey key2 = CanonicalMIMEHeaderKey k)
        then value2
        else if decide (CanonicalMIMEHeaderKey key1 = CanonicalMIMEHeaderKey k)
             then value1
             else Header_Get (req_Header req) k) ∧
  CanonicalMIMEHeaderKey "content-type" = CanonicalMIMEHeaderKey "Content-Type".
Proof.
  cbn zeta. unfold SetHeader, Request_setHeader, Header_Set. cbn.
  split; [|split; [|split; [|reflexivity]]].
  - intros ->. by rewrite insert_insert_eq.
  - intros Hne. by rewrite insert_insert_ne.
  - intros k. unfold Header_Get.
    destruct (decide (CanonicalMIMEHeaderKey key2 = CanonicalMIMEHeaderKey k)) as [->|H2].
    { by rewrite lookup_insert_eq. }
    rewrite lookup_insert_ne by done.
    destruct (decide (CanonicalMIMEHeaderKey key1 = CanonicalMIMEHeaderKey k)) as [->|H1].
    { by rewrite lookup_insert_eq. }
    by rewrite lookup_insert_ne.
Qed.

(** ** The options of [New] *)

Lemma New_snoc (opts : list ClientOption) opt : New (opts ++ [opt]) = opt (New opts).
Proof. unfold New. by rewrite foldl_app. Qed.

(** X17: [New] under the options [Timeout] and [DisableTrafficDebug], in any
    number and order: the client has no retry policy and no default request
    options; traffic debugging is on exactly when [DisableTrafficDebug] is
    not among the options; the timeout is that of the last [Timeout]
    option, and zero when there is none. *)
Theorem New_options (opts : list ClientOption) :
  Forall (λ opt, (∃ d, opt = Timeout d) ∨ opt = DisableTrafficDebug) opts →
  cl_retrier (New opts) = None ∧
  cl_reqOpts (New opts) = [] ∧
  (cl_debugTraffic (New opts) = true ↔ DisableTrafficDebug ∉ opts) ∧
  ((∀ d, Timeout d ∉ opts) → cl_Timeout (New opts) = 0) ∧
  (∀ d rest, opts = rest ++ [Timeout d] → cl_Timeout (New opts) = d) ∧
  (∀ rest, opts = rest ++ [DisableTrafficDebug] →
           cl_Timeout (New opts) = cl_Timeout (New rest)).
Proof.
  assert (∀ d, Timeout d ≠ DisableTrafficDebug) as Hneq.
  { intros d H. apply (f_equal (λ f, cl_debugTraffic (f (mkClient 0 None [] true)))) in H.
    discriminate. }
  intros Hopts.
  assert (cl_retrier (New opts) = None ∧ cl_reqOpts (New opts) = [] ∧
          (cl_debugTraffic (New opts) = true ↔ DisableTrafficDebug ∉ opts) ∧
          ((∀ d, Timeout d ∉ opts) → cl_Timeout (New opts) = 0)) as (? & ? & ? & ?).
  { induction opts as [|opt opts IH] using rev_ind.
    - cbn. repeat split; try done. intros _. apply not_elem_of_nil.
    - apply Forall_app in Hopts as [Hopts Hopt].
      apply Forall_inv in Hopt. cbn beta in Hopt.
      destruct (IH Hopts) as (Hr & Ho & Hd & Ht).
      rewrite New_snoc. destruct Hopt as [[d Heq]|Heq]; subst opt; cbn.
      + do 2 (split; [done|]). split.
        * rewrite Hd, not_elem_of_app, not_elem_of_cons. 
          split; [intros ?; repeat split; [done|by apply not_eq_sym|apply not_elem_of_nil]
                 |tauto].
        * intros Hno. exfalso. apply (Hno d), elem_of_app. right.
          apply list_elem_of_here.
      + do 2 (split; [done|]). split.
        * split; [done|]. intros Hno. exfalso. apply Hno, elem_of_app. right.
          apply list_elem_of_here.
        * intros Hno. apply Ht. intros d Hin. apply (Hno d), elem_of_app. by left. }
  do 4 (split; [done|]). split.
  - intros d rest ->. by rewrite New_snoc.
  - intros rest ->. by rewrite New_snoc.
Qed.

End OptionProperties.

Section RetrierProperties.
Context `{E : Env}.

#[local] Arguments count : simpl never.
#[local] Arguments optionCalls : simpl never.

Lemma Run_loop_last classify ctx method url body reqOpts remaining st :
  ∃ result err st_last st_end t_pre t_last,
    Run_loop classify remaining (attempt ctx method url body reqOpts) st =
      (err, mkState (st_client st_end) (st_net st_end) (result, err),
       t_pre ++ t_last) ∧
    do ctx method url body reqOpts st_last = (result, err, st_end, t_last).
Proof.
  revert st. induction remaining as [|d remaining IH]; intros st;
    cbn [Run_loop]; rewrite bind_run, attempt_run;
    destruct (do ctx method url body reqOpts st) as [[[result err] st1] t] eqn:Hdo.
  - exists result, err, st, st1, [], t.
    destruct err as [e|], (classify _); cbn; rewrite app_nil_r; done.
  - cbn [snd].
    destruct (classify err);
      try (exists result, err, st, st1, [], t; destruct err; cbn;
           rewrite app_nil_r; done).
    cbn. rewrite bind_run. cbn.
    destruct (IH (mkState (st_client st1) (st_net st1) (result, err)))
      as (result' & err' & st_last & st_end & t_pre & t_last & Hrun & Hlast).
    exists result', err', st_last, st_end, (t ++ EvSleep d :: t_pre), t_last.
    split; [|done].
    destruct err as [e|]; cbn; cbn in Hrun; rewrite Hrun; cbn;
      by rewrite <- !app_assoc.
Qed.

(** X9: whatever the retrier of the client (none, that of [SetRetry], or one
    set by [SetRetrier] with any classifier and schedule), what [Do]
    returns, text and error, is what its last call of [do] returned; so an
    error never comes with a text. *)
Theorem Do_returns_last_attempt ctx method url body reqOpts st result err st' t :
  Do ctx method url body reqOpts st = (result, err, st', t) →
  (∃ st_last st_end t_pre t_last,
     do ctx method url body reqOpts st_last = (result, err, st_end, t_last) ∧
     t = t_pre ++ t_last) ∧
  (err ≠ None → result = "").
Proof.
  intros HDo.
  assert (∃ st_last st_end t_pre t_last,
            do ctx method url body reqOpts st_last = (result, err, st_end, t_last) ∧
            t = t_pre ++ t_last) as Hlast.
  { unfold Do in HDo. rewrite bind_run in HDo. cbn in HDo.
    destruct (cl_retrier (st_client st)) as [r|].
    - rewrite bind_run in HDo. cbn in HDo. rewrite bind_run in HDo.
      unfold Retrier_Run in HDo.
      match type of HDo with
      | context [Run_loop _ _ _ ?s] =>
          destruct (Run_loop_last (class r) ctx method url body reqOpts (backoff r) s)
            as (result' & err' & st_last & st_end & t_pre & t_last & Hrun & Hdo)
      end.
      rewrite Hrun in HDo. cbn in HDo. rewrite bind_run in HDo. cbn in HDo.
      rewrite ?app_nil_r in HDo. simplify_eq.
      by exists st_last, st_end, t_pre, t_last.
    - destruct (do ctx method url body reqOpts st) as [[[result' err'] st1] t1] eqn:Hdo.
      cbn in HDo. simplify_eq. exists st, st', [], t. done. }
  split; [done|].
  destruct Hlast as (st_last & st_end & t_pre & t_last & Hdo & _).
  destruct err as [e|]; [|done]. intros _.
  by eapply do_error_result.
Qed.

End RetrierProperties.

Section DownloadChain.
Context `{E : Env} `{F : FileSystem}.

#[local] Arguments count : simpl never.
#[local] Arguments optionCalls : simpl never.

Lemma downloadRun_chain ctx url outFile reqOpts st fs err s' t req0 :
  downloadRun ctx url outFile reqOpts st fs err s' t →
  http_NewRequest "GET" url "" = inr req0 →
  ∃ calls out tail,
    chain (cl_reqOpts (st_client st) ++ reqOpts) ctx req0 calls out ∧
    pipelineEvents t = EvNewRequest "GET" url "" :: map callEvent calls ++ tail ∧
    match out with
    | inl e => tail = [] ∧ err = Some e ∧ s' = (st, fs) ∧ fileEvents t = []
    | inr (_, req) =>
        ∃ r rest, tail = EvDispatch req r :: rest ∧
                  count isDispatch rest = 0%nat ∧ optionCalls rest = []
    end.
Proof.
  intros Hrun Hnew.
  destruct Hrun as [e Hnew'|r0 calls e Hnew' Hchain
                   |r0 calls ctx' req net e Hnew' Hchain Hnet
                   |r0 calls ctx' req net resp Hnew' Hchain Hnet Hs
                   |r0 calls ctx' req net resp fs1 e Hnew' Hchain Hnet Hs Hcreate
                   |r0 calls ctx' req net resp fs1 fs2 written e
                    Hnew' Hchain Hnet Hs Hcreate Hcopy];
    try congruence; assert (r0 = req0) as -> by congruence.
  - exists calls, (inl e), []. split; [done|].
    rewrite pipelineEvents_map, fileEvents_map, app_nil_r. done.
  - exists calls, (inr (ctx', req)). eexists. split; [done|].
    rewrite pipelineEvents_map. split; [done|]. by eexists _, _.
  - exists calls, (inr (ctx', req)). eexists. split; [done|].
    rewrite pipelineEvents_map. split; [done|]. by eexists _, _.
  - exists calls, (inr (ctx', req)).
    exists [EvDispatch req (inr resp);
            errorRecord (downloadLogger url outFile req) "create download file" e;
            EvClose RespBody].
    split; [done|].
    rewrite pipelineEvents_app, pipelineEvents_map.
    split; [cbn; by rewrite <- app_assoc|]. by eexists _, _.
  - exists calls, (inr (ctx', req)).
    eexists (EvDispatch req (inr resp) :: _ :: [EvClose RespBody]).
    split; [done|].
    rewrite pipelineEvents_app, pipelineEvents_map.
    split; [cbn; by rewrite <- app_assoc|].
    eexists _, _. split; [done|]. by destruct e.
Qed.

(** X14: [DownloadFile] runs the option chain as [do] does: the default options
    of the client, then those of the call, each handed the context its
    predecessor returned; the first error ends the chain, is returned, and
    nothing is dispatched and no file touched; when the chain ends well,
    the request it leaves is the one dispatched. *)
Theorem DownloadFile_option_chain ctx url outFile reqOpts st fs req0 err st' fs' t :
  http_NewRequest "GET" url "" = inr req0 →
  DownloadFile ctx url outFile reqOpts (st, fs) = (err, (st', fs'), t) →
  ∃ calls out,
    chain (cl_reqOpts (st_client st) ++ reqOpts) ctx req0 calls out ∧
    optionCalls (pipelineEvents t) = calls ∧
    match out with
    | inl e =>
        err = Some e ∧ count isDispatch (pipelineEvents t) = 0%nat ∧
        fileEvents t = [] ∧ fs' = fs ∧ st' = st
    | inr (_, req) =>
        count isDispatch (pipelineEvents t) = 1%nat ∧
        ∃ r, EvDispatch req r ∈ pipelineEvents t
    end.
Proof.
  intros Hnew Hrun. apply DownloadFile_run in Hrun.
  destruct (downloadRun_chain _ _ _ _ _ _ _ _ _ _ Hrun Hnew)
    as (calls & out & tail & Hchain & -> & Hout).
  exists calls, out. split; [done|].
  rewrite optionCalls_cons, optionCalls_app, optionCalls_callEvent,
    count_cons, count_app, (count_callEvent isDispatch) by done.
  destruct out as [e|[ctx' req]].
  - destruct Hout as (-> & -> & Hs & Hf). injection Hs as -> ->.
    split; [by rewrite app_nil_r|]. done.
  - destruct Hout as (r & rest & -> & Hrest & Hopts).
    rewrite optionCalls_cons, count_cons, Hrest, Hopts. cbn [app].
    split; [by rewrite app_nil_r|]. split; [done|].
    exists r. apply list_elem_of_further, elem_of_app. right. apply list_elem_of_here.
Qed.


End DownloadChain.

(** ** The query string [SetQuery] writes *)

Lemma String_leb_trans (s1 s2 s3 : string) :
  String.leb s1 s2 = true → String.leb s2 s3 = true → String.leb s1 s3 = true.
Proof.
  unfold String.leb. revert s2 s3.
  induction s1 as [|c1 r1 IH]; intros [|c2 r2] [|c3 r3]; cbn; try done.
  unfold Ascii.compare.
  destruct (N.compare_spec (N_of_ascii c1) (N_of_ascii c2)) as [H12|H12|H12];
    destruct (N.compare_spec (N_of_ascii c2) (N_of_ascii c3)) as [H23|H23|H23];
    try done.
  - rewrite H12, H23, N.compare_refl. apply IH.
  - intros _ _. rewrite H12. by apply N.compare_lt_iff in H23 as ->.
  - intros _ _. rewrite <- H23. by apply N.compare_lt_iff in H12 as ->.
  - intros _ _.
    assert (N_of_ascii c1 < N_of_ascii c3)%N as H by lia.
    by apply N.compare_lt_iff in H as ->.
Qed.

#[local] Instance String_leb_transitive :
  Transitive (λ x y : string, Is_true (String.leb x y)).
Proof.
  intros x y z Hxy Hyz. apply Is_true_true. apply Is_true_true in Hxy, Hyz.
  by eapply String_leb_trans.
Qed.

#[local] Instance String_leb_total_rel :
  Total (λ x y : string, Is_true (String.leb x y)).
Proof.
  intros x y. destruct (String.leb_total x y) as [H|H]; [left|right];
    by apply Is_true_true.
Qed.

#[local] Instance String_leb_antisymm :
  AntiSymm eq (λ x y : string, Is_true (String.leb x y)).
Proof.
  intros x y Hxy Hyx. apply Is_true_true in Hxy, Hyx.
  by apply String.leb_antisym.
Qed.

Lemma StronglySorted_filter {A} (R : relation A) (P : A → Prop)
    `{∀ x, Decision (P x)} (l : list A) :
  StronglySorted R l → StronglySorted R (filter P l).
Proof.
  induction 1 as [|x l Hl IH Hx]; [constructor|].
  destruct (decide (P x)).
  - rewrite filter_cons_True by done. constructor; [done|].
    apply Forall_forall. intros y [_ Hy]%list_elem_of_filter.
    by eapply Forall_forall in Hx.
  - by rewrite filter_cons_False.
Qed.

Lemma flat_map_filter {A B} (f : A → list B) (P : A → Prop)
    `{∀ x, Decision (P x)} (l : list A) :
  (∀ x, ¬ P x → f x = []) → flat_map f (filter P l) = flat_map f l.
Proof.
  intros Hf. induction l as [|x l IH]; [done|].
  destruct (decide (P x)).
  - rewrite filter_cons_True by done. cbn. by rewrite IH.
  - rewrite filter_cons_False by done. cbn. by rewrite IH, Hf.
Qed.

Lemma sortedKeys_elem (v : Values) k : k ∈ sortedKeys v ↔ is_Some (v !! k).
Proof.
  unfold sortedKeys. rewrite merge_sort_Permutation.
  rewrite list_elem_of_fmap. split.
  - intros ([k' x] & -> & Hin). apply elem_of_map_to_list in Hin. by eexists.
  - intros [x Hx]. exists (k, x). split; [done|]. by apply elem_of_map_to_list.
Qed.

Lemma sortedKeys_NoDup (v : Values) : NoDup (sortedKeys v).
Proof.
  unfold sortedKeys. rewrite merge_sort_Permutation.
  apply NoDup_fst_map_to_list.
Qed.

(** The encoding depends on the values under each key only: a key without
    values and a missing key encode alike. *)
Lemma Values_Encode_ext (v1 v2 : Values) :
  (∀ k, v1 !!! k = v2 !!! k) → Values_Encode v1 = Values_Encode v2.
Proof.
  intros Hv. rewrite !Values_Encode_joinPairs. f_equal. unfold pairsOf.
  rewrite <- (flat_map_filter _ (λ k, v1 !!! k ≠ []) (sortedKeys v1))
    by (intros k Hk; apply dec_stable in Hk; by rewrite Hk).
  rewrite <- (flat_map_filter _ (λ k, v2 !!! k ≠ []) (sortedKeys v2))
    by (intros k Hk; apply dec_stable in Hk; by rewrite Hk).
  assert (filter (λ k, v1 !!! k ≠ []) (sortedKeys v1) =
          filter (λ k, v2 !!! k ≠ []) (sortedKeys v2)) as ->.
  { apply (StronglySorted_unique (λ x y : string, Is_true (String.leb x y))).
    - apply StronglySorted_filter, StronglySorted_merge_sort; apply _.
    - apply StronglySorted_filter, StronglySorted_merge_sort; apply _.
    - apply NoDup_Permutation.
      + apply NoDup_filter, sortedKeys_NoDup.
      + apply NoDup_filter, sortedKeys_NoDup.
      + intros k. rewrite !list_elem_of_filter, !sortedKeys_elem, Hv.
        assert (∀ v : Values, v !!! k ≠ [] → is_Some (v !! k)) as Hsome.
        { intros v. rewrite lookup_total_alt.
          destruct (v !! k); [by eexists|done]. }
        split; intros [Hne _]; (split; [done|]); apply Hsome; [done|].
        by rewrite Hv. }
  apply flat_map_ext. intros k. by rewrite Hv.
Qed.

(** X18: the query [SetQuery] writes is in normal form: parsing it and encoding
    it again gives the same string, so [SetQuery] with no values, applied to
    a request that went through [SetQuery], leaves the request as it
    is. *)
Theorem SetQuery_normal_form `{E : Env} (values : Values) (ctx : Ctx) (req : Request) :
  let req' := (SetQuery values ctx req).1.2 in
  SetQuery ∅ ctx req' = (ctx, req', None) ∧
  Values_Encode (URL_Query (req_URL req')) = RawQuery (req_URL req').
Proof.
  cbn zeta.
  set (q := addAll values (URL_Query (req_URL req))).
  change (SetQuery values ctx req).1.2
    with (Request_setRawQuery req (Values_Encode q)).
  assert (Values_Encode (URL_Query (req_URL (Request_setRawQuery req (Values_Encode q))))
          = Values_Encode q) as Hq.
  { change (URL_Query (req_URL (Request_setRawQuery req ?x))) with (parseQuery ∅ x).
    apply Values_Encode_ext. intros k. apply parseQuery_Encode_lookup. }
  split; [|exact Hq].
  unfold SetQuery, addAll. rewrite map_fold_empty, Hq. done.
Qed.

(** * The statements, tried on the loopback environment *)

Import Scenarios.

(** C1, as stated, fails on a 200 whose body is not what its
    [Content-Encoding] announces: [do] returns an error. *)
Lemma do_status_check_counterexample :
  EvDispatch request (inr notGzip) ∈ runNotGzip.2 ∧
  200 ≤ resp_StatusCode notGzip < 300 ∧
  runNotGzip.1.1 = ("", Some (ErrExt "gzip: invalid header")).
Proof.
  split; [|split; [by vm_compute | by vm_compute]].
  apply list_elem_of_further, list_elem_of_here.
Qed.

Lemma do_status_check_witness :
  (resp_StatusCode notFound < 200 ∨ 300 ≤ resp_StatusCode notFound →
   run404.1.1.1 = "" ∧
   run404.1.1.2 = Some (ErrHTTP (mkHTTPError 404 "404 Not Found")) ∧
   count isBodyRead run404.2 = 0%nat) ∧
  (200 ≤ resp_StatusCode ok < 300 →
   match @decode Loopback.env ok with
   | inr text => run200.1.1.1 = text ∧ run200.1.1.2 = None
   | inl e => run200.1.1.1 = "" ∧ run200.1.1.2 = Some e
   end).
Proof.
  split.
  - apply (@do_status_check Loopback.env [] "GET" url "" []
             (Loopback.state0 [inr notFound])
             run404.1.1.1 run404.1.1.2 run404.1.2 run404.2 request notFound).
    + reflexivity.
    + apply list_elem_of_further, list_elem_of_here.
  - apply (@do_status_check Loopback.env [] "GET" url "" []
             (Loopback.state0 [inr ok])
             run200.1.1.1 run200.1.1.2 run200.1.2 run200.2 request ok).
    + reflexivity.
    + apply list_elem_of_further, list_elem_of_here.
Defined.


Lemma do_option_chain_witness :
  ∃ calls out,
    chain ([tag "a"] ++ [tag "b"; reject; tag "c"]) [] request calls out ∧
    optionCalls runRejected.2 = calls ∧
    map (λ c, c.1.1) calls `prefix_of` ([tag "a"] ++ [tag "b"; reject; tag "c"]) ∧
    match out with
    | inl e => runRejected.1.1.1 = "" ∧ runRejected.1.1.2 = Some e ∧
               count isDispatch runRejected.2 = 0%nat
    | inr (_, req) =>
        count isDispatch runRejected.2 = 1%nat ∧ ∃ r, EvDispatch req r ∈ runRejected.2
    end.
Proof.
  apply (@do_option_chain Loopback.env [] "GET" url ""
           [tag "b"; reject; tag "c"] (tagged [inr ok]) request
           runRejected.1.1.1 runRejected.1.1.2 runRejected.1.2 runRejected.2).
  - reflexivity.
  - reflexivity.
Defined.

Lemma do_log_records_witness :
  (count isLog run404.2 ≤ 1)%nat ∧
  (∀ e, Loopback.newRequest "GET" url "" = inl e → count isLog run404.2 = 0%nat) ∧
  (∀ req0 calls e,
     Loopback.newRequest "GET" url "" = inr req0 →
     @chain Loopback.env ([] ++ []) [] req0 calls (inl e) →
     count isLog run404.2 = 0%nat) ∧
  (∀ req0 calls ctx' req,
     Loopback.newRequest "GET" url "" = inr req0 →
     @chain Loopback.env ([] ++ []) [] req0 calls (inr (ctx', req)) →
     count isLog run404.2 = 1%nat).
Proof.
  apply (@do_log_records Loopback.env [] "GET" url "" []
           (Loopback.state0 [inr notFound])
           run404.1.1.1 run404.1.1.2 run404.1.2 run404.2).
  reflexivity.
Defined.

Lemma do_log_records_counterexample :
  (∃ st' t, runBadMethod = ("", Some (ErrExt "net/http: invalid method"), st', t) ∧
            count isLog t = 0%nat) ∧
  (∃ st' t, runRejected = ("", Some (ErrExt "rejected"), st', t) ∧
            count isLog t = 0%nat).
Proof.
  split; eexists _, _; split; reflexivity.
Qed.


Lemma wrappers_Do_counterexample :
  Loopback.marshal "[" "]" (IRawMessage "{") = inl (ErrExt "invalid raw message") ∧
  runRawMessage.1.1 = (None, None) ∧
  count isDispatch runRawMessage.2 = 1%nat ∧
  count isMarshal runRawMessage.2 = 0%nat ∧
  ¬ @WrapperSpec Loopback.env JSONClient_Do SetTypeJSON json_Marshal json_Unmarshal false.
Proof.
  split; [reflexivity|]. split; [reflexivity|].
  split; [reflexivity|]. split; [reflexivity|].
  intros H.
  destruct (H [] "POST" url (IRawMessage "{") None [] (Loopback.state0 [inr ok]))
    as [Hm _].
  destruct (Hm (ErrExt "invalid raw message") eq_refl eq_refl) as (t & Heq & _).
  apply (f_equal (λ x, x.1.1.2)) in Heq.
  vm_compute in Heq. discriminate Heq.
Qed.

Lemma wrappers_keep_destination_witness :
  runJSON404.1.1.1 = Some "before" ∧
  runJSON404.1.1.2 = Some (ErrHTTP (mkHTTPError 404 "404 Not Found")) ∧
  count isUnmarshal runJSON404.2 = 0%nat.
Proof.
  pose (plain := @Do Loopback.env [] "GET" url "" [SetTypeJSON]
                   (Loopback.state0 [inr notFound])).
  apply (proj1 (@wrappers_keep_destination Loopback.env [] "GET" url INil
                  (Some "before") [] (Loopback.state0 [inr notFound]))
           "" plain.1.1.1 (Some (ErrHTTP (mkHTTPError 404 "404 Not Found")))
           plain.1.2 plain.2
           runJSON404.1.1.1 runJSON404.1.1.2 runJSON404.1.2 runJSON404.2).
  - reflexivity.
  - reflexivity.
  - left. discriminate.
  - reflexivity.
Defined.

Lemma default_reqOpts_unchanged_witness :
  let stored := Slices.SetDefaultReqOpts defaults in
  Slices.cap stored = Slices.len stored ∧
  Slices.elems (Slices.calls "" growcap heap stored [more; Slices.nilSlice; more]) stored =
    ["a"; "b"] ∧
  Slices.elems (Slices.appendReqOpts "" growcap heap stored more).1
               (Slices.appendReqOpts "" growcap heap stored more).2 = ["a"; "b"; "b"] ∧
  ∃ a, Slices.arr (Slices.appendReqOpts "" growcap heap stored more).2 = Some a ∧
       heap !! a = None.
Proof.
  assert (Slices.valid heap defaults) as Hv.
  { split; [cbn; lia|]. cbn. exists ["a"; "b"]. split; [reflexivity | cbn; lia]. }
  destruct (@default_reqOpts_unchanged string "" growcap heap defaults
              [more; Slices.nilSlice; more] Hv) as (Hc & He & Hcall).
  destruct (Hcall heap more) as (Happ & _ & Hfresh & _).
  { split; [cbn; lia|]. cbn. exists ["a"; "b"]. split; [reflexivity | cbn; lia]. }
  split; [exact Hc|]. split; [exact He|]. split; [exact Happ|].
  apply Hfresh. discriminate.
Defined.

Lemma default_reqOpts_unchanged_counterexample :
  let stored := Slices.SetDefaultReqOpts defaults in
  Slices.valid heap stored ∧
  Slices.appendReqOpts "" growcap heap stored Slices.nilSlice = (heap, stored) ∧
  Slices.arr stored = Some 1%nat ∧
  heap !! 1%nat = Some ["a"; "b"].
Proof.
  cbn zeta. split; [|split; [|split]].
  - split; [cbn; lia|]. cbn. exists ["a"; "b"]. split; [reflexivity | cbn; lia].
  - reflexivity.
  - reflexivity.
  - reflexivity.
Qed.

(** The retry scenario of the specification: two retries against a server that answers
    503 every time make three dispatches and two sleeps, and the call
    returns the status error of the last one. *)
Example Do_retry_503 :
  runRetry503.1.1 =
    ("", Some (ErrHTTP (mkHTTPError 503 "503 Service Unavailable"))) ∧
  count isDispatch runRetry503.2 = 3%nat ∧
  count isSleep runRetry503.2 = 2%nat ∧
  count isLog runRetry503.2 = 3%nat.
Proof. repeat split; reflexivity. Qed.

(** ** More of the package, tried on the loopback environment *)



Lemma do_traffic_debug_witness :
  let r := mkLog DebugLevel "request success"
             [FString "method" "GET"; FString "url" "http://h/p";
              FString "body" ""; FString "result" "world";
              FString "set_cookies" ""; FDuration "proc_time"] in
  FString "body" "" ∈ log_fields r ∧
  (@None error = None → FString "result" "world" ∈ log_fields r).
Proof.
  refine (@do_traffic_debug Loopback.env [] "GET" url "" []
            (Loopback.state0 [inr ok]) "world" None
            run200.1.2 run200.2 _ eq_refl _).
  do 3 apply list_elem_of_further. apply list_elem_of_here.
Defined.

Lemma do_closes_witness :
  last runGzip.2 = Some (EvClose RespBody) ∧
  filter (λ e, isClose e = true) runGzip.2 = [EvClose GzipReader; EvClose RespBody].
Proof.
  destruct (@do_closes Loopback.env [] "GET" url "" []
              (Loopback.state0 [inr gzipped]) runGzip.1.1 runGzip.1.2 runGzip.2
              eq_refl) as [H _].
  apply (H request gzipped).
  apply list_elem_of_further, list_elem_of_here.
Defined.

Lemma Do_last_header_witness :
  let tagged_ok := tagged [inr ok] in
  ∃ req,
    EvDispatch req (inr ok) ∈
      (@Do Loopback.env [] "GET" url "" ([tag "b"] ++ [SetHeader "x-tag" "z"])
           tagged_ok).2 ∧
    Header_Get (req_Header req) "x-tag" = "z" ∧
    req_Header req !! "X-Tag" = Some ["z"].
Proof.
  cbn zeta. eexists. split.
  2: { eapply (@Do_last_header Loopback.env [] "GET" url "" [tag "b"] "x-tag" "z"
                 (tagged [inr ok]) _ (inr ok)).
       do 4 apply list_elem_of_further. apply list_elem_of_here. }
  do 4 apply list_elem_of_further. apply list_elem_of_here.
Defined.

Lemma Do_retry_attempts_witness :
  ∃ k, (k ≤ length schedule)%nat ∧
       count isNewRequest runRetry503.2 = S k ∧
       sleeps runRetry503.2 = take k schedule ∧
       (runRetry503.1.1.2 = None ∨ k = length schedule) ∧
       ∃ st_last st_end t_pre t_last,
         @do Loopback.env [] "GET" url "" [] st_last =
           (runRetry503.1.1.1, runRetry503.1.1.2, st_end, t_last) ∧
         runRetry503.2 = t_pre ++ t_last.
Proof.
  apply (@Do_retry_attempts Loopback.env [] "GET" url "" [] schedule
           (Loopback.state0 [inr unavailable; inr unavailable; inr unavailable])
           runRetry503.1.1.1 runRetry503.1.1.2 runRetry503.1.2 runRetry503.2).
  reflexivity.
Defined.

Lemma HTTPError_Error_inj_witness :
  HTTPError_Error (mkHTTPError 404 "404 Not Found") = "HTTP Error: 404, 404 Not Found" ∧
  mkHTTPError (200 + 204) ("404 " +:+ "Not Found") = mkHTTPError 404 "404 Not Found".
Proof.
  split; [reflexivity|].
  apply (HTTPError_Error_inj (mkHTTPError (200 + 204) ("404 " +:+ "Not Found"))
           (mkHTTPError 404 "404 Not Found")).
  reflexivity.
Defined.

Lemma New_options_witness :
  let opts := [@Timeout Loopback.env 5; DisableTrafficDebug; Timeout 7] in
  cl_retrier (New opts) = None ∧
  cl_reqOpts (New opts) = [] ∧
  (cl_debugTraffic (New opts) = true ↔ DisableTrafficDebug ∉ opts) ∧
  ((∀ d, Timeout d ∉ opts) → cl_Timeout (New opts) = 0) ∧
  (∀ d rest, opts = rest ++ [Timeout d] → cl_Timeout (New opts) = d) ∧
  (∀ rest, opts = rest ++ [DisableTrafficDebug] →
           cl_Timeout (New opts) = cl_Timeout (New rest)).
Proof.
  apply (@New_options Loopback.env
           [@Timeout Loopback.env 5; DisableTrafficDebug; Timeout 7]).
  constructor; [left; by exists 5|].
  constructor; [by right|].
  constructor; [left; by exists 7|]. constructor.
Defined.

Lemma DownloadFile_failure_keeps_files_witness :
  (Files.download Files.missing).1.2.2 = Files.old ∧
  fileEvents (Files.download Files.missing).2 = [] ∧
  (Files.download Files.missing).1.1 ≠ None ∧
  ∀ req resp,
    EvDispatch req (inr resp) ∈ pipelineEvents (Files.download Files.missing).2 →
    (Files.download Files.missing).1.1 =
      Some (ErrHTTP (mkHTTPError (resp_StatusCode resp) (resp_Status resp))).
Proof.
  apply (@DownloadFile_failure_keeps_files Loopback.env Files.fileSystem
           [] "http://h/p" "out.txt" [] (Loopback.state0 [inr Files.missing])
           Files.old (Files.download Files.missing).1.1
           (Files.download Files.missing).1.2.1).
  - reflexivity.
  - intros req resp Hin.
    apply elem_of_cons in Hin as [Hin|Hin]; [discriminate|].
    apply elem_of_cons in Hin as [Hin|Hin].
    + injection Hin as -> ->. right. vm_compute. discriminate.
    + apply elem_of_cons in Hin as [Hin|Hin]; [discriminate|].
      apply elem_of_cons in Hin as [Hin|Hin]; [discriminate|].
      by apply elem_of_nil in Hin.
Defined.

Lemma DownloadFile_saves_witness :
  last (Files.download Files.page).2 = Some (FPipeline (EvClose RespBody)) ∧
  (Files.download Files.page).1.1 = None ∧
  (Files.download Files.page).1.2.2 = {[ "out.txt" := "world" ]} ∧
  fileEvents (Files.download Files.page).2 =
    [FCreate "out.txt"; FCopy "out.txt" (resp_Body Files.page); FCloseFile "out.txt"].
Proof.
  destruct (@DownloadFile_saves Loopback.env Files.fileSystem
              [] "http://h/p" "out.txt" [] (Loopback.state0 [inr Files.page])
              Files.old (Files.download Files.page).1.1
              (Files.download Files.page).1.2.1 (Files.download Files.page).1.2.2
              (Files.download Files.page).2 request Files.page)
    as (Hlast & Herr & Hfs & Hev).
  - reflexivity.
  - apply list_elem_of_further, list_elem_of_here.
  - cbn. lia.
  - split; [exact Hlast|]. split; [exact Herr|]. split; [|exact Hev].
    rewrite Hfs. vm_compute. reflexivity.
Defined.

Lemma DownloadFile_option_chain_witness :
  ∃ calls out,
    @chain Loopback.env ([] ++ []) [] request calls out ∧
    optionCalls (pipelineEvents (Files.download Files.page).2) = calls ∧
    match out with
    | inl e =>
        (Files.download Files.page).1.1 = Some e ∧
        count isDispatch (pipelineEvents (Files.download Files.page).2) = 0%nat ∧
        fileEvents (Files.download Files.page).2 = [] ∧
        (Files.download Files.page).1.2.2 = Files.old ∧
        (Files.download Files.page).1.2.1 = Loopback.state0 [inr Files.page]
    | inr (_, req) =>
        count isDispatch (pipelineEvents (Files.download Files.page).2) = 1%nat ∧
        ∃ r, EvDispatch req r ∈ pipelineEvents (Files.download Files.page).2
    end.
Proof.
  apply (@DownloadFile_option_chain Loopback.env Files.fileSystem
           [] "http://h/p" "out.txt" [] (Loopback.state0 [inr Files.page])
           Files.old request (Files.download Files.page).1.1
           (Files.download Files.page).1.2.1 (Files.download Files.page).1.2.2
           (Files.download Files.page).2).
  - reflexivity.
  - reflexivity.
Defined.

Lemma Do_returns_last_attempt_witness :
  (∃ st_last st_end t_pre t_last,
     @do Loopback.env [] "GET" url "" [] st_last =
       (runRetry503.1.1.1, runRetry503.1.1.2, st_end, t_last) ∧
     runRetry503.2 = t_pre ++ t_last) ∧
  (runRetry503.1.1.2 ≠ None → runRetry503.1.1.1 = "").
Proof.
  apply (@Do_returns_last_attempt Loopback.env [] "GET" url "" []
           (@SetRetry Loopback.env schedule
              (Loopback.state0 [inr unavailable; inr unavailable; inr unavailable])).1.2
           runRetry503.1.1.1 runRetry503.1.1.2 runRetry503.1.2 runRetry503.2).
  reflexivity.
Defined.
